(** * The model-serving core of the API subscription system

    A shallow embedding of [app/services/model_service.py] (the
    [ModelService] class: catalog scan, lazy load, unload, dispatch) and of
    the two generation endpoints of [app/api/endpoints/models.py], with
    the properties the specification states about them.

    Conventions.
    - A Python [str] is a Rocq [string]; code points are below 256.
    - A Python [dict] keyed by strings is a [gmap string _]; the order in
      which a dict enumerates its items is not modelled.
    - The libraries the service drives (transformers, diffusers,
      onnxruntime, torch) and the filesystem are an explicit [Env] record,
      supplied per call: what they answer is arbitrary, and a call that
      raises answers [Exc].
    - Calls into these libraries and the lines written to the logger are
      recorded, in order, in the [events] field of the service state. *)

From stdpp Require Import base option list strings gmap fin_maps.
From Stdlib Require Import Ascii ZArith Lia.

Local Open Scope string_scope.
Local Open Scope list_scope.
Local Open Scope nat_scope.

(** ** Python strings and paths *)

Module PyStr.

(** [s.endswith(suffix)] *)
Definition endswith (s suffix : string) : bool :=
  let n := String.length s in
  let k := String.length suffix in
  (k <=? n)%nat && String.eqb (String.substring (n - k) k s) suffix.

(** [s.startswith(prefix)] *)
Definition startswith (s pre : string) : bool :=
  String.prefix pre s.

(** [s.rfind(c)] for a one-character [c], counted from [i], the index of
    the first character of [s]; [-1] when [c] does not occur. *)
Fixpoint rfind_from (c : Ascii.ascii) (s : string) (i : Z) : Z :=
  match s with
  | EmptyString => (-1)%Z
  | String a s' =>
      let r := rfind_from c s' (i + 1)%Z in
      if (0 <=? r)%Z then r
      else if Ascii.eqb a c then i else (-1)%Z
  end.

Definition rfind (c : Ascii.ascii) (s : string) : Z := rfind_from c s 0.

(** The slices [s[i:]] and [s[:i]] for [0 <= i]. *)
Definition slice_from (i : Z) (s : string) : string :=
  String.substring (Z.to_nat i) (String.length s - Z.to_nat i) s.

Definition slice_to (i : Z) (s : string) : string :=
  String.substring 0 (Z.to_nat i) s.

(** [str.isspace] on one character: the ASCII table of CPython
    (TAB..CR, FS..US, SPACE) and the two Latin-1 spaces NEL and NBSP. *)
Definition isspace (c : Ascii.ascii) : bool :=
  let n := Ascii.nat_of_ascii c in
  (((9 <=? n) && (n <=? 13)) || ((28 <=? n) && (n <=? 32))
   || (n =? 133) || (n =? 160))%nat.

(** [s.split()] with no argument: maximal runs of non-space characters.
    [cur] is the run being read. *)
Fixpoint split_from (cur : string) (s : string) : list string :=
  match s with
  | EmptyString => if String.eqb cur EmptyString then [] else [cur]
  | String c s' =>
      if isspace c
      then (if String.eqb cur EmptyString then split_from EmptyString s'
            else cur :: split_from EmptyString s')
      else split_from (cur +:+ String c EmptyString) s'
  end.

Definition split (s : string) : list string := split_from EmptyString s.

End PyStr.

Module OsPath.
Import PyStr.

Definition sep : Ascii.ascii := "/"%char.
Definition extsep : Ascii.ascii := "."%char.

(** [posixpath.basename]: [i = p.rfind('/') + 1; return p[i:]] *)
Definition basename (p : string) : string :=
  slice_from (rfind sep p + 1) p.

(** [posixpath.join(a, b)] *)
Definition join (a b : string) : string :=
  if startswith b (String sep EmptyString) then b
  else if String.eqb a EmptyString || endswith a (String sep EmptyString) then a +:+ b
  else a +:+ String sep EmptyString +:+ b.

(** The loop of [genericpath._splitext] that skips leading dots:
    [fuel] bounds the remaining iterations by [dotIndex - filenameIndex]. *)
Fixpoint splitext_scan (p : string) (dotIndex filenameIndex : Z) (fuel : nat)
  : string * string :=
  match fuel with
  | O => (p, EmptyString)
  | S fuel' =>
      if (filenameIndex <? dotIndex)%Z then
        if negb (String.eqb (String.substring (Z.to_nat filenameIndex) 1 p)
                            (String extsep EmptyString))
        then (slice_to dotIndex p, slice_from dotIndex p)
        else splitext_scan p dotIndex (filenameIndex + 1)%Z fuel'
      else (p, EmptyString)
  end.

(** [posixpath.splitext] *)
Definition splitext (p : string) : string * string :=
  let sepIndex := rfind sep p in
  let dotIndex := rfind extsep p in
  if (sepIndex <? dotIndex)%Z
  then splitext_scan p dotIndex (sepIndex + 1)
         (Z.to_nat (dotIndex - (sepIndex + 1)))
  else (p, EmptyString).

End OsPath.


(** ** Exceptions, results and the environment *)

Inductive exn :=
| KeyError (key : string)
| IndexError
| NameError (name : string)
| LibraryError (msg : string).

(** [str(e)], as the handlers format it into the log. *)
Definition exn_str (e : exn) : string :=
  match e with
  | KeyError k => "'" +:+ k +:+ "'"
  | IndexError => "list index out of range"
  | NameError n => "name '" +:+ n +:+ "' is not defined"
  | LibraryError m => m
  end.

Inductive pyresult (A : Type) :=
| Ok (v : A)
| Exc (e : exn).
Arguments Ok {A} v.
Arguments Exc {A} e.

(** References to the objects the libraries hand back (weights, tokenizer,
    session, pipeline), and the payload of a tensor; neither is inspected. *)
Definition obj := nat.
Definition tensor := list Z.
Definition bytes := list Byte.byte.

(** One triple [(root, dirs, files)] yielded by [os.walk]. *)
Definition walk_entry : Type := string * list string * list string.

(** What the world outside the service answers during one call. *)
Record Env := {
  path_exists : string → bool;                      (* os.path.exists *)
  makedirs : string → pyresult unit;                (* os.makedirs(_, exist_ok=True) *)
  walk : string → list walk_entry;                  (* os.walk *)
  causal_lm_from_pretrained : string → pyresult obj;  (* AutoModelForCausalLM.from_pretrained *)
  tokenizer_from_pretrained : string → pyresult obj;  (* AutoTokenizer.from_pretrained *)
  inference_session : string → pyresult obj;          (* ort.InferenceSession *)
  pipeline_from_pretrained : string → pyresult obj;   (* StableDiffusionPipeline.from_pretrained *)
  pipeline_to : obj → pyresult unit;                  (* pipeline.to(device) *)
  release_memory : pyresult unit;                     (* gc.collect(); torch.cuda.empty_cache() *)
  (* tokenizer(prompt); model.generate(..., max_length=max_tokens); tokenizer.decode *)
  text_generate : obj → obj → string → Z → pyresult string;
  (* pipeline(prompt).images[0] saved as PNG into a buffer *)
  pipeline_call : obj → string → pyresult bytes;
  get_inputs : obj → list string;                     (* [i.name for i in session.get_inputs()] *)
  get_outputs : obj → list string;                    (* [o.name for o in session.get_outputs()] *)
  session_run : obj → gmap string tensor → pyresult (list tensor)  (* session.run(None, _) *)
}.

(** The calls into the libraries that the service makes, as recorded. *)
Inductive call :=
| Makedirs (p : string)
| CausalLM_from_pretrained (p : string)
| Tokenizer_from_pretrained (p : string)
| New_InferenceSession (p : string)
| Pipeline_from_pretrained (p : string)
| Pipeline_to (pipeline : obj)
| Release_memory
| Text_generate (model tokenizer : obj) (prompt : string) (max_tokens : Z)
| Pipeline_call (pipeline : obj) (prompt : string)
| Session_run (session : obj) (inputs : gmap string tensor).

Inductive event :=
| LogInfo (msg : string)
| LogError (msg : string)
| Call (c : call).

(** ** The service state *)

(** An entry of [available_models]: the dict with keys "path", "type",
    "loaded". *)
Record descriptor := {
  path : string;
  type : string;
  loaded : bool
}.

(** An entry of [loaded_models] is itself a dict from a key ("model",
    "tokenizer", "session", "pipeline") to a library object. *)
Record ModelService := {
  model_dir : string;
  loaded_models : gmap string (gmap string obj);
  available_models : gmap string descriptor;
  events : list event
}.

Definition set_loaded_models (f : gmap string (gmap string obj) → gmap string (gmap string obj))
    (s : ModelService) : ModelService :=
  {| model_dir := model_dir s;
     loaded_models := f (loaded_models s);
     available_models := available_models s;
     events := events s |}.

Definition set_available_models (f : gmap string descriptor → gmap string descriptor)
    (s : ModelService) : ModelService :=
  {| model_dir := model_dir s;
     loaded_models := loaded_models s;
     available_models := f (available_models s);
     events := events s |}.

Definition emit (e : event) (s : ModelService) : ModelService :=
  {| model_dir := model_dir s;
     loaded_models := loaded_models s;
     available_models := available_models s;
     events := events s ++ [e] |}.

(** ** A state-and-exception monad for the method bodies *)

Definition M (A : Type) : Type := ModelService → pyresult A * ModelService.

Definition ret {A} (v : A) : M A := λ s, (Ok v, s).
Definition raise {A} (e : exn) : M A := λ s, (Exc e, s).

Definition bind {A B} (m : M A) (k : A → M B) : M B :=
  λ s, match m s with
       | (Ok v, s') => k v s'
       | (Exc e, s') => (Exc e, s')
       end.

(** [try: body except Exception as e: handler]; what [body] did to the
    state before it raised stays done. *)
Definition try_except {A} (body : M A) (handler : exn → M A) : M A :=
  λ s, match body s with
       | (Ok v, s') => (Ok v, s')
       | (Exc e, s') => handler e s'
       end.

Definition gets {A} (f : ModelService → A) : M A := λ s, (Ok (f s), s).
Definition modify (f : ModelService → ModelService) : M unit := λ s, (Ok tt, f s).
Definition lift {A} (r : pyresult A) : M A := λ s, (r, s).

Notation "'let*' x ':=' m 'in' k" := (bind m (λ x, k))
  (at level 10, x name, m at level 100, k at level 200).
Notation "m ;; k" := (bind m (λ _, k))
  (at level 100, k at level 200, right associativity).

Definition logger_info (msg : string) : M unit := modify (emit (LogInfo msg)).
Definition logger_error (msg : string) : M unit := modify (emit (LogError msg)).

(** A library call: recorded, then answered by the environment. *)
Definition invoke {A} (c : call) (answer : pyresult A) : M A :=
  λ s, (answer, emit (Call c) s).

(** [d[key]] on a dict. *)
Definition getitem {V} (d : gmap string V) (key : string) : M V :=
  match d !! key with
  | Some v => ret v
  | None => raise (KeyError key)
  end.

(** [self.available_models[model_name]["loaded"] = b] *)
Definition set_loaded_flag (model_name : string) (b : bool) : M unit :=
  let* models := gets available_models in
  let* info := getitem models model_name in
  modify (set_available_models
            (insert model_name {| path := path info; type := type info; loaded := b |})).

Fixpoint for_each {A} (l : list A) (body : A → M unit) : M unit :=
  match l with
  | [] => ret tt
  | x :: l' => body x ;; for_each l' body
  end.

(** ** [ModelService.scan_models] and [get_available_models] *)

(** [self.available_models[model_name] = {"path": .., "type": .., "loaded": False}] *)
Definition register (model_name model_path model_type : string) : M unit :=
  modify (set_available_models
            (insert model_name
               {| path := model_path; type := model_type; loaded := false |})).

(** The body of the [for root, dirs, files in os.walk(..)] loop. *)
Definition scan_entry (e : walk_entry) : M unit :=
  let '(root, dirs, files) := e in
  (if bool_decide ("config.json" ∈ files) then
     let model_path := root in
     let model_name := OsPath.basename root in
     register model_name model_path "transformers" ;;
     logger_info ("Found transformers model: " +:+ model_name +:+ " at " +:+ model_path)
   else ret tt) ;;
  for_each files (λ file,
    if PyStr.endswith file ".onnx" then
      let model_path := OsPath.join root file in
      let model_name := (OsPath.splitext file).1 in
      register model_name model_path "onnx" ;;
      logger_info ("Found ONNX model: " +:+ model_name +:+ " at " +:+ model_path)
    else ret tt) ;;
  (if bool_decide ("model_index.json" ∈ files) then
     let model_path := root in
     let model_name := OsPath.basename root in
     register model_name model_path "stable-diffusion" ;;
     logger_info ("Found Stable Diffusion model: " +:+ model_name +:+ " at " +:+ model_path)
   else ret tt).

Definition scan_models (E : Env) : M unit :=
  let* dir := gets model_dir in
  logger_info ("Scanning models in " +:+ dir) ;;
  if negb (path_exists E dir) then
    invoke (Makedirs dir) (makedirs E dir) ;;
    logger_info ("Created model directory at " +:+ dir)
  else
    for_each (walk E dir) scan_entry.

(** An element of the list [get_available_models] returns. *)
Record listed := {
  listed_name : string;
  listed_type : string;
  listed_loaded : bool
}.

Definition get_available_models (s : ModelService) : list listed :=
  (λ '(name, info),
     {| listed_name := name; listed_type := type info; listed_loaded := loaded info |})
  <$> map_to_list (available_models s).

(** [ModelService.__init__], with [settings.MODEL_DIR = dir]. *)
Definition new_service (dir : string) : ModelService :=
  {| model_dir := dir; loaded_models := ∅; available_models := ∅; events := [] |}.

Definition init (E : Env) (dir : string) : pyresult unit * ModelService :=
  scan_models E (new_service dir).

(** ** [ModelService.load_model] *)

(** The library calls of one branch of the [if model_type == ..] chain,
    up to the dict that the branch stores; [None] when no branch matches. *)
Definition materialize (E : Env) (model_type model_path : string)
  : M (option (gmap string obj)) :=
  if String.eqb model_type "transformers" then
    let* model := invoke (CausalLM_from_pretrained model_path)
                         (causal_lm_from_pretrained E model_path) in
    let* tokenizer := invoke (Tokenizer_from_pretrained model_path)
                             (tokenizer_from_pretrained E model_path) in
    ret (Some (<["model" := model]> (<["tokenizer" := tokenizer]> ∅)))
  else if String.eqb model_type "onnx" then
    let* session := invoke (New_InferenceSession model_path)
                           (inference_session E model_path) in
    ret (Some (<["session" := session]> ∅))
  else if String.eqb model_type "stable-diffusion" then
    let* pipeline := invoke (Pipeline_from_pretrained model_path)
                            (pipeline_from_pretrained E model_path) in
    invoke (Pipeline_to pipeline) (pipeline_to E pipeline) ;;
    ret (Some (<["pipeline" := pipeline]> ∅))
  else ret None.

(** What follows the library calls inside the [try]: the store into
    [loaded_models], the flag, the log line. *)
Definition commit_load (model_name : string) (h : option (gmap string obj)) : M bool :=
  match h with
  | Some d => modify (set_loaded_models (insert model_name d))
  | None => ret tt
  end ;;
  set_loaded_flag model_name true ;;
  logger_info ("Successfully loaded model " +:+ model_name) ;;
  ret true.

Definition load_failed (model_name : string) (e : exn) : M bool :=
  logger_error ("Failed to load model " +:+ model_name +:+ ": " +:+ exn_str e) ;;
  ret false.

Definition load_model (E : Env) (model_name : string) : M bool :=
  let* models := gets available_models in
  match models !! model_name with
  | None =>
      logger_error ("Model " +:+ model_name +:+ " not found") ;;
      ret false
  | Some model_info =>
      if loaded model_info then
        logger_info ("Model " +:+ model_name +:+ " already loaded") ;;
        ret true
      else
        let model_path := path model_info in
        let model_type := type model_info in
        try_except
          (let* h := materialize E model_type model_path in
           commit_load model_name h)
          (load_failed model_name)
  end.

(** ** [ModelService.unload_model] *)

Definition unload_model (E : Env) (model_name : string) : M bool :=
  let* lm := gets loaded_models in
  match lm !! model_name with
  | None =>
      logger_error ("Model " +:+ model_name +:+ " not loaded") ;;
      ret false
  | Some _ =>
      try_except
        (modify (set_loaded_models (delete model_name)) ;;
         set_loaded_flag model_name false ;;
         invoke Release_memory (release_memory E) ;;
         logger_info ("Successfully unloaded model " +:+ model_name) ;;
         ret true)
        (λ e,
           logger_error ("Failed to unload model " +:+ model_name +:+ ": " +:+ exn_str e) ;;
           ret false)
  end.

(** ** Dispatch: [generate_text], [generate_image], [run_onnx_model] *)

(** The first statement of the three dispatch methods:
    [if model_name not in self.loaded_models: if not self.load_model(..)].
    [false] is the case in which the method returns [None] at once. *)
Definition ensure_loaded (E : Env) (model_name : string) : M bool :=
  let* lm := gets loaded_models in
  match lm !! model_name with
  | None => load_model E model_name
  | Some _ => ret true
  end.

Definition generate_text (E : Env) (model_name prompt : string) (max_tokens : Z)
  : M (option string) :=
  let* ready := ensure_loaded E model_name in
  if negb ready then ret None else
  let* models := gets available_models in
  let* model_info := getitem models model_name in
  if negb (String.eqb (type model_info) "transformers") then
    logger_error ("Model " +:+ model_name +:+ " is not a text generation model") ;;
    ret None
  else
    try_except
      (let* lm := gets loaded_models in
       let* model_data := getitem lm model_name in
       let* model := getitem model_data "model" in
       let* tokenizer := getitem model_data "tokenizer" in
       let* response := invoke (Text_generate model tokenizer prompt max_tokens)
                               (text_generate E model tokenizer prompt max_tokens) in
       ret (Some response))
      (λ e,
         logger_error ("Text generation failed with model " +:+ model_name +:+ ": "
                       +:+ exn_str e) ;;
         ret None).

Definition generate_image (E : Env) (model_name prompt : string)
  : M (option bytes) :=
  let* ready := ensure_loaded E model_name in
  if negb ready then ret None else
  let* models := gets available_models in
  let* model_info := getitem models model_name in
  if negb (String.eqb (type model_info) "stable-diffusion") then
    logger_error ("Model " +:+ model_name +:+ " is not an image generation model") ;;
    ret None
  else
    try_except
      (let* lm := gets loaded_models in
       let* model_data := getitem lm model_name in
       let* pipeline := getitem model_data "pipeline" in
       let* image_bytes := invoke (Pipeline_call pipeline prompt)
                                  (pipeline_call E pipeline prompt) in
       ret (Some image_bytes))
      (λ e,
         logger_error ("Image generation failed with model " +:+ model_name +:+ ": "
                       +:+ exn_str e) ;;
         ret None).

(** The loop that copies the required inputs: [inr] the dict built, or
    [inl] the first required name that [inputs] lacks. *)
Fixpoint prepare_inputs (input_names : list string)
    (inputs onnx_inputs : gmap string tensor) : string + gmap string tensor :=
  match input_names with
  | [] => inr onnx_inputs
  | name :: rest =>
      match inputs !! name with
      | Some v => prepare_inputs rest inputs (<[name := v]> onnx_inputs)
      | None => inl name
      end
  end.

(** [{name: outputs[i] for i, name in enumerate(output_names)}], from
    index [i] on. *)
Fixpoint build_result (output_names : list string) (i : nat)
    (outputs : list tensor) (result : gmap string tensor)
  : pyresult (gmap string tensor) :=
  match output_names with
  | [] => Ok result
  | name :: rest =>
      match outputs !! i with
      | Some t => build_result rest (S i) outputs (<[name := t]> result)
      | None => Exc IndexError
      end
  end.

Definition run_onnx_model (E : Env) (model_name : string)
    (inputs : gmap string tensor) : M (option (gmap string tensor)) :=
  let* ready := ensure_loaded E model_name in
  if negb ready then ret None else
  let* models := gets available_models in
  let* model_info := getitem models model_name in
  if negb (String.eqb (type model_info) "onnx") then
    logger_error ("Model " +:+ model_name +:+ " is not an ONNX model") ;;
    ret None
  else
    try_except
      (let* lm := gets loaded_models in
       let* model_data := getitem lm model_name in
       let* session := getitem model_data "session" in
       let input_names := get_inputs E session in
       match prepare_inputs input_names inputs ∅ with
       | inl name =>
           logger_error ("Required input " +:+ name +:+ " not provided") ;;
           ret None
       | inr onnx_inputs =>
           let* outputs := invoke (Session_run session onnx_inputs)
                                  (session_run E session onnx_inputs) in
           let output_names := get_outputs E session in
           let* result := lift (build_result output_names 0 outputs ∅) in
           ret (Some result)
       end)
      (λ e,
         logger_error ("ONNX inference failed with model " +:+ model_name +:+ ": "
                       +:+ exn_str e) ;;
         ret None).

(** ** The generation endpoints of [app/api/endpoints/models.py] *)

Module Endpoints.

Local Abbreviation service_generate_text := generate_text.
Local Abbreviation service_generate_image := generate_image.

(** The columns of the tables that the endpoints read or write. *)
Record AIModel := {
  ai_id : Z;
  ai_name : string;
  ai_type : string;
  ai_is_active : bool
}.

Record ApiKey := {
  key_id : Z;
  key_user_id : Z        (* [api_key.user.id] *)
}.

(** The request schemas; the sampling and size fields are parsed by the
    schema and read by neither endpoint, so they are left out. *)
Record TextGenerationRequest := {
  prompt : string;
  max_tokens : Z
}.

Record ImageGenerationRequest := {
  image_prompt : string
}.

(** [request.json()], kept as the request it renders. *)
Inductive request_json :=
| TextJson (r : TextGenerationRequest)
| ImageJson (r : ImageGenerationRequest).

Record UsageLog := {
  user_id : Z;
  api_key_id : Z;
  endpoint : string;
  model_id : Z;
  tokens_used : Z;
  request_data : request_json;
  status_code : Z
}.

Record database := {
  ai_models : list AIModel;
  usage_logs : list UsageLog
}.

Record TextGenerationResponse := {
  text : string;
  response_tokens_used : Z;
  model : string
}.

Record ImageGenerationResponse := {
  image_url : string;
  image_tokens_used : Z;
  image_model : string
}.

(** How a handler ends: the body it returns, the [HTTPException] it
    raises, or another exception, which the framework answers itself. *)
Inductive outcome (A : Type) :=
| Respond (body : A)
| HTTPException (status : Z) (detail : string)
| Unhandled (e : exn).
Arguments Respond {A} body.
Arguments HTTPException {A} status detail.
Arguments Unhandled {A} e.

(** [db.query(AIModel).filter(name == .., is_active == True, type == ..).first()] *)
Definition query_model (db : database) (model_name kind : string) : option AIModel :=
  List.find (λ m, String.eqb (ai_name m) model_name && ai_is_active m
                  && String.eqb (ai_type m) kind)
            (ai_models db).

(** [db.add(usage_log); db.commit()] *)
Definition add_usage_log (l : UsageLog) (db : database) : database :=
  {| ai_models := ai_models db; usage_logs := usage_logs db ++ [l] |}.

(** [not generated_text] on an [Optional[str]]. *)
Definition falsy_text (r : option string) : bool :=
  match r with
  | None => true
  | Some t => String.eqb t EmptyString
  end.

(** [not image_bytes] on an [Optional[bytes]]. *)
Definition falsy_bytes (r : option bytes) : bool :=
  match r with
  | None | Some [] => true
  | Some (_ :: _) => false
  end.

Definition has_subscription : bool := true.

Definition generate_text (E : Env) (request : TextGenerationRequest)
    (model_name : string) (db : database) (api_key : ApiKey) (s : ModelService)
  : outcome TextGenerationResponse * database * ModelService :=
  match query_model db model_name "text" with
  | None =>
      (HTTPException 404 ("Text generation model '" +:+ model_name +:+ "' not found"),
       db, s)
  | Some ai_model =>
      if negb has_subscription then
        (HTTPException 402 "Active subscription required for text generation", db, s)
      else
        match service_generate_text E model_name (prompt request) (max_tokens request) s with
        | (Exc e, s') => (Unhandled e, db, s')
        | (Ok generated_text, s') =>
            if falsy_text generated_text then
              (HTTPException 500 "Text generation failed", db, s')
            else
              let t := default EmptyString generated_text in
              let used :=
                (Z.of_nat (length (PyStr.split (prompt request)))
                 + Z.of_nat (length (PyStr.split t)))%Z in
              let usage_log :=
                {| user_id := key_user_id api_key;
                   api_key_id := key_id api_key;
                   endpoint := "/api/models/text-generation";
                   model_id := ai_id ai_model;
                   tokens_used := used;
                   request_data := TextJson request;
                   status_code := 200 |} in
              (Respond {| text := t; response_tokens_used := used;
                          model := model_name |},
               add_usage_log usage_log db, s')
        end
  end.

Definition generate_image (E : Env) (request : ImageGenerationRequest)
    (model_name : string) (db : database) (api_key : ApiKey) (s : ModelService)
  : outcome ImageGenerationResponse * database * ModelService :=
  match query_model db model_name "image" with
  | None =>
      (HTTPException 404 ("Image generation model '" +:+ model_name +:+ "' not found"),
       db, s)
  | Some ai_model =>
      if negb has_subscription then
        (HTTPException 402 "Active subscription required for image generation", db, s)
      else
        match service_generate_image E model_name (image_prompt request) s with
        | (Exc e, s') => (Unhandled e, db, s')
        | (Ok image_bytes, s') =>
            if falsy_bytes image_bytes then
              (HTTPException 500 "Image generation failed", db, s')
            else
              (* os.makedirs("static/images", exist_ok=True), then the file
                 name reads [time.time()], and the module never imports
                 [time]: the handler stops there. *)
              let s'' := emit (Call (Makedirs "static/images")) s' in
              match makedirs E "static/images" with
              | Exc e => (Unhandled e, db, s'')
              | Ok _ => (Unhandled (NameError "time"), db, s'')
              end
        end
  end.

End Endpoints.

(** ** A concrete world, for the examples *)

Module Sample.

(** A root with a text model, an ONNX file and a diffusion model; every
    library call succeeds. *)
Definition tree : list walk_entry :=
  [ ("./models", ["mistral-7b"; "sd15"; "vision"], []);
    ("./models/mistral-7b", [], ["config.json"; "pytorch_model.bin"]);
    ("./models/sd15", [], ["model_index.json"]);
    ("./models/vision", [], ["resnet50.onnx"; "labels.txt"]) ].

Definition world : Env :=
  {| path_exists := λ _, true;
     makedirs := λ _, Ok tt;
     walk := λ _, tree;
     causal_lm_from_pretrained := λ _, Ok 1;
     tokenizer_from_pretrained := λ _, Ok 2;
     inference_session := λ _, Ok 3;
     pipeline_from_pretrained := λ _, Ok 4;
     pipeline_to := λ _, Ok tt;
     release_memory := Ok tt;
     text_generate := λ _ _ prompt _, Ok (prompt +:+ " world again");
     pipeline_call := λ _ _, Ok [Byte.x89; Byte.x50; Byte.x4e; Byte.x47];
     get_inputs := λ _, ["pixels"];
     get_outputs := λ _, ["logits"; "probs"];
     session_run := λ _ _, Ok [[1%Z; 2%Z]; [3%Z]] |}.

(** That world over another tree. *)
Definition with_tree (t : list walk_entry) : Env :=
  {| path_exists := path_exists world;
     makedirs := makedirs world;
     walk := λ _, t;
     causal_lm_from_pretrained := causal_lm_from_pretrained world;
     tokenizer_from_pretrained := tokenizer_from_pretrained world;
     inference_session := inference_session world;
     pipeline_from_pretrained := pipeline_from_pretrained world;
     pipeline_to := pipeline_to world;
     release_memory := release_memory world;
     text_generate := text_generate world;
     pipeline_call := pipeline_call world;
     get_inputs := get_inputs world;
     get_outputs := get_outputs world;
     session_run := session_run world |}.

(** The same world with the weights unreadable. *)
Definition broken : Env :=
  {| path_exists := path_exists world;
     makedirs := makedirs world;
     walk := walk world;
     causal_lm_from_pretrained := λ _, Exc (LibraryError "corrupt checkpoint");
     tokenizer_from_pretrained := tokenizer_from_pretrained world;
     inference_session := λ _, Exc (LibraryError "invalid protobuf");
     pipeline_from_pretrained := λ _, Exc (LibraryError "missing unet");
     pipeline_to := pipeline_to world;
     release_memory := release_memory world;
     text_generate := text_generate world;
     pipeline_call := pipeline_call world;
     get_inputs := get_inputs world;
     get_outputs := get_outputs world;
     session_run := session_run world |}.

(** A world in which the root directory is still to be created. *)
Definition fresh : Env :=
  {| path_exists := λ _, false;
     makedirs := makedirs world;
     walk := λ _, [];
     causal_lm_from_pretrained := causal_lm_from_pretrained world;
     tokenizer_from_pretrained := tokenizer_from_pretrained world;
     inference_session := inference_session world;
     pipeline_from_pretrained := pipeline_from_pretrained world;
     pipeline_to := pipeline_to world;
     release_memory := release_memory world;
     text_generate := text_generate world;
     pipeline_call := pipeline_call world;
     get_inputs := get_inputs world;
     get_outputs := get_outputs world;
     session_run := session_run world |}.

(** The world in which every generation succeeds with nothing: the model
    decodes to the empty string, the pipeline saves no byte. *)
Definition mute : Env :=
  {| path_exists := path_exists world;
     makedirs := makedirs world;
     walk := walk world;
     causal_lm_from_pretrained := causal_lm_from_pretrained world;
     tokenizer_from_pretrained := tokenizer_from_pretrained world;
     inference_session := inference_session world;
     pipeline_from_pretrained := pipeline_from_pretrained world;
     pipeline_to := pipeline_to world;
     release_memory := release_memory world;
     text_generate := λ _ _ _ _, Ok EmptyString;
     pipeline_call := λ _ _, Ok [];
     get_inputs := get_inputs world;
     get_outputs := get_outputs world;
     session_run := session_run world |}.

(** The rows of [ai_models] and the key of the caller. *)
Definition db : Endpoints.database :=
  {| Endpoints.ai_models :=
       [ {| Endpoints.ai_id := 1; Endpoints.ai_name := "mistral-7b";
            Endpoints.ai_type := "text"; Endpoints.ai_is_active := true |};
         {| Endpoints.ai_id := 2; Endpoints.ai_name := "sd15";
            Endpoints.ai_type := "image"; Endpoints.ai_is_active := true |} ];
     Endpoints.usage_logs := [] |}.

Definition key : Endpoints.ApiKey :=
  {| Endpoints.key_id := 7; Endpoints.key_user_id := 42 |}.

Definition hello : Endpoints.TextGenerationRequest :=
  {| Endpoints.prompt := "Hello"; Endpoints.max_tokens := 10 |}.

Definition sunset : Endpoints.ImageGenerationRequest :=
  {| Endpoints.image_prompt := "a sunset" |}.

(** The service as the module-level singleton is built. *)
Definition service : ModelService := (init world "./models").2.

End Sample.

(** ** Vocabulary of the properties *)

(** The state with further events recorded and nothing else changed. *)
Definition extend (evs : list event) (s : ModelService) : ModelService :=
  {| model_dir := model_dir s;
     loaded_models := loaded_models s;
     available_models := available_models s;
     events := events s ++ evs |}.

(** Two states that hold the same registry and the same handles. *)
Definition same_store (s s' : ModelService) : Prop :=
  model_dir s = model_dir s'
  ∧ loaded_models s = loaded_models s'
  ∧ available_models s = available_models s'.

(** The three values [scan_models] writes under "type". *)
Definition known_type (ty : string) : Prop :=
  ty = "transformers" ∨ ty = "onnx" ∨ ty = "stable-diffusion".

(** The call that reads the weights: the first library call of each branch
    of [load_model]. One such call is one backend load. *)
Definition is_load_call (e : event) : bool :=
  match e with
  | Call (CausalLM_from_pretrained _)
  | Call (New_InferenceSession _)
  | Call (Pipeline_from_pretrained _) => true
  | _ => false
  end.

Definition load_calls (evs : list event) : list event :=
  List.filter is_load_call evs.

Definition is_error (e : event) : bool :=
  match e with
  | LogError _ => true
  | _ => false
  end.

(** What [materialize] answers and which calls it makes do not depend on
    the state it runs in; both are read off a run in a blank state. *)
Definition materialize_result (E : Env) (model_type model_path : string)
  : pyresult (option (gmap string obj)) :=
  (materialize E model_type model_path (new_service EmptyString)).1.

Definition materialize_calls (E : Env) (model_type model_path : string)
  : list event :=
  events (materialize E model_type model_path (new_service EmptyString)).2.

(** The state a successful load leaves: the handle stored (when a branch
    built one), the flag raised, the success logged. *)
Definition loaded_state (model_name : string) (d : descriptor)
    (h : option (gmap string obj)) (s : ModelService) : ModelService :=
  emit (LogInfo ("Successfully loaded model " +:+ model_name))
    (set_available_models
       (insert model_name {| path := path d; type := type d; loaded := true |})
       (match h with
        | Some dict => set_loaded_models (insert model_name dict) s
        | None => s
        end)).

(** The state once the handle is deleted and the flag lowered. *)
Definition unloaded_state (model_name : string) (d : descriptor)
    (s : ModelService) : ModelService :=
  emit (Call Release_memory)
    (set_available_models
       (insert model_name {| path := path d; type := type d; loaded := false |})
       (set_loaded_models (delete model_name) s)).

(** [loaded == True] iff a handle exists, for every name. *)
Definition flag_iff_handle (s : ModelService) : Prop :=
  ∀ name,
    (∃ d, available_models s !! name = Some d ∧ loaded d = true)
    ↔ is_Some (loaded_models s !! name).

(** The direction of it that survives a second scan, with what the
    methods rely on: a handle belongs to a registered name, and every
    registered type is one of the three. *)
Record well_formed (s : ModelService) : Prop := {
  wf_types : ∀ name d, available_models s !! name = Some d → known_type (type d);
  wf_flag : ∀ name d, available_models s !! name = Some d → loaded d = true →
                      is_Some (loaded_models s !! name);
  wf_registered : ∀ name, is_Some (loaded_models s !! name) →
                          is_Some (available_models s !! name)
}.

(** What [load_model] does to the two dicts: nothing, or the load of a
    registered name whose flag was down. *)
Definition load_effect (name : string) (s s' : ModelService) : Prop :=
  same_store s s'
  ∨ ∃ d dict,
      available_models s !! name = Some d ∧ loaded d = false
      ∧ model_dir s' = model_dir s
      ∧ loaded_models s' = <[name := dict]> (loaded_models s)
      ∧ available_models s'
        = <[name := {| path := path d; type := type d; loaded := true |}]>
            (available_models s).

(** What [unload_model] does to them: nothing, or the removal of the
    handle of a registered name. *)
Definition unload_effect (name : string) (s s' : ModelService) : Prop :=
  same_store s s'
  ∨ ∃ d,
      available_models s !! name = Some d ∧ is_Some (loaded_models s !! name)
      ∧ model_dir s' = model_dir s
      ∧ loaded_models s' = delete name (loaded_models s)
      ∧ available_models s'
        = <[name := {| path := path d; type := type d; loaded := false |}]>
            (available_models s).

(** A dispatch that took [s] to [s'] went through a fresh load of
    [name]: the library calls of [materialize] were made again, and if they
    built the dict [h], the model is loaded with [h] as its handle. *)
Definition fresh_load (E : Env) (name : string) (d : descriptor)
    (s s' : ModelService) : Prop :=
  (∃ evs, events s' = events s ++ materialize_calls E (type d) (path d) ++ evs)
  ∧ ∀ h, materialize_result E (type d) (path d) = Ok (Some h) →
         loaded_models s' !! name = Some h
         ∧ loaded <$> available_models s' !! name = Some true.

(** *** The artifacts of a tree, in the words of the filesystem contract *)

Record artifact := {
  art_name : string;
  art_path : string;
  art_kind : string
}.

(** A directory with [config.json] is a text model named after the
    directory; a file ending in [.onnx] is a tensor graph named after the
    file without its extension; a directory with [model_index.json] is a
    diffusion model named after the directory. Listed in scan order. *)
Definition artifacts_of (e : walk_entry) : list artifact :=
  let '(root, dirs, files) := e in
  (if bool_decide ("config.json" ∈ files)
   then [ {| art_name := OsPath.basename root; art_path := root;
             art_kind := "transformers" |} ]
   else [])
  ++ (files ≫= λ file,
        if PyStr.endswith file ".onnx"
        then [ {| art_name := (OsPath.splitext file).1;
                  art_path := OsPath.join root file;
                  art_kind := "onnx" |} ]
        else [])
  ++ (if bool_decide ("model_index.json" ∈ files)
      then [ {| art_name := OsPath.basename root; art_path := root;
                art_kind := "stable-diffusion" |} ]
      else []).

Definition artifacts (tree : list walk_entry) : list artifact :=
  tree ≫= artifacts_of.

Definition descriptor_of (a : artifact) : descriptor :=
  {| path := art_path a; type := art_kind a; loaded := false |}.

(** The registry after the artifacts are written into it in order. *)
Definition register_all (arts : list artifact) (m : gmap string descriptor)
  : gmap string descriptor :=
  foldl (λ m a, <[art_name a := descriptor_of a]> m) m arts.

(** *** Sequences of operations *)

Inductive operation :=
| Scan
| Load (model_name : string)
| Unload (model_name : string)
| GenerateText (model_name prompt : string) (max_tokens : Z)
| GenerateImage (model_name prompt : string)
| RunOnnx (model_name : string) (inputs : gmap string tensor).

(** The state an operation leaves, whatever it returned or raised. *)
Definition perform (E : Env) (o : operation) (s : ModelService) : ModelService :=
  match o with
  | Scan => (scan_models E s).2
  | Load n => (load_model E n s).2
  | Unload n => (unload_model E n s).2
  | GenerateText n p k => (generate_text E n p k s).2
  | GenerateImage n p => (generate_image E n p s).2
  | RunOnnx n i => (run_onnx_model E n i s).2
  end.

Definition is_scan (o : operation) : bool :=
  match o with
  | Scan => true
  | _ => false
  end.

(** The states of the singleton: built by [__init__], then driven by any
    operations, each in a world of its own. With [rescan = false] the only
    scan is the one [__init__] runs. *)
Inductive reachable (rescan : bool) : ModelService → Prop :=
| reachable_init E dir s :
    init E dir = (Ok tt, s) → reachable rescan s
| reachable_step E o s :
    reachable rescan s → (is_scan o = true → rescan = true) →
    reachable rescan (perform E o s).

(** Calls to [load_model] for one name, one after the other. *)
Fixpoint load_model_each (Es : list Env) (model_name : string) : M (list bool) :=
  match Es with
  | [] => ret []
  | E :: Es' =>
      let* r := load_model E model_name in
      let* rs := load_model_each Es' model_name in
      ret (r :: rs)
  end.

(** ** Callers of [load_model] that interleave

    The service takes no lock, and the endpoints that reach it are plain
    [def] handlers, which the framework runs on a pool of threads. A caller
    of [load_model] can be suspended where it calls into a library. Its
    run is cut there into three atomic steps: the checks of lines 77-87,
    the library calls of the [try], and the stores that follow them (or
    the handler). *)

Module Interleaving.

Inductive control :=
| Entry
| Loading (model_type model_path : string)
| Storing (answer : pyresult (option (gmap string obj)))
| Finished (result : bool).

Definition finish (r : pyresult bool * ModelService) : control * ModelService :=
  match r with
  | (Ok b, s) => (Finished b, s)
  | (Exc _, s) => (Finished false, s)
  end.

Definition thread_step (E : Env) (model_name : string) (c : control)
    (s : ModelService) : control * ModelService :=
  match c with
  | Entry =>
      match available_models s !! model_name with
      | None =>
          finish ((logger_error ("Model " +:+ model_name +:+ " not found") ;;
                   ret false) s)
      | Some model_info =>
          if loaded model_info then
            finish ((logger_info ("Model " +:+ model_name +:+ " already loaded") ;;
                     ret true) s)
          else (Loading (type model_info) (path model_info), s)
      end
  | Loading model_type model_path =>
      let '(answer, s') := materialize E model_type model_path s in
      (Storing answer, s')
  | Storing (Ok h) =>
      finish (try_except (commit_load model_name h) (load_failed model_name) s)
  | Storing (Exc e) =>
      finish (load_failed model_name e s)
  | Finished b => (Finished b, s)
  end.

(** The callers and the state they share. *)
Definition config : Type := list control * ModelService.

(** Thread [t] takes its next step. *)
Definition step (E : Env) (model_name : string) (cfg : config) (t : nat) : config :=
  match cfg.1 !! t with
  | None => cfg
  | Some c =>
      let '(c', s') := thread_step E model_name c cfg.2 in
      (<[t := c']> cfg.1, s')
  end.

Definition run (E : Env) (model_name : string) (schedule : list nat)
    (cfg : config) : config :=
  foldl (step E model_name) cfg schedule.

(** [n] callers, none of which has started. *)
Definition start (n : nat) (s : ModelService) : config :=
  (replicate n Entry, s).

(** One caller running alone to its end. *)
Definition alone (E : Env) (model_name : string) (s : ModelService)
  : control * ModelService :=
  let '(c1, s1) := thread_step E model_name Entry s in
  let '(c2, s2) := thread_step E model_name c1 s1 in
  thread_step E model_name c2 s2.

(** The schedule in which no two callers overlap: caller [t] takes its
    three steps, then caller [t + 1], and so on for [n] callers. *)
Definition sequential_from (t n : nat) : list nat :=
  seq t n ≫= λ t, [t; t; t].

Definition sequential (n : nat) : list nat := sequential_from 0 n.

End Interleaving.

(** ** Further vocabulary *)

(** The model an operation is about; a scan is about none. *)
Definition operation_target (o : operation) : option string :=
  match o with
  | Scan => None
  | Load n | Unload n | GenerateText n _ _ | GenerateImage n _ | RunOnnx n _ => Some n
  end.

(** The result a method call leaves, when it returned at all. *)
Definition returned {A} (r : pyresult A * ModelService) : Prop :=
  ∃ v, r.1 = Ok v.

(** Further worlds for the examples. *)
Module Faulty.

(** Every load succeeds and every generation raises. *)
Definition crashing : Env :=
  {| path_exists := path_exists Sample.world;
     makedirs := makedirs Sample.world;
     walk := walk Sample.world;
     causal_lm_from_pretrained := causal_lm_from_pretrained Sample.world;
     tokenizer_from_pretrained := tokenizer_from_pretrained Sample.world;
     inference_session := inference_session Sample.world;
     pipeline_from_pretrained := pipeline_from_pretrained Sample.world;
     pipeline_to := pipeline_to Sample.world;
     release_memory := Exc (LibraryError "CUDA error");
     text_generate := λ _ _ _ _, Exc (LibraryError "out of memory");
     pipeline_call := λ _ _, Exc (LibraryError "out of memory");
     get_inputs := get_inputs Sample.world;
     get_outputs := get_outputs Sample.world;
     session_run := λ _ _, Ok [[1%Z; 2%Z]] |}.

End Faulty.

(** ** [verify_api_key] of [app/api/dependencies.py]

    The dependency that both generation endpoints declare. A [datetime] is
    its count of microseconds; [datetime.utcnow()] is read twice, once for
    the expiry test and once for the stamp, and both readings are
    arguments. *)

Module Dependencies.

(** The columns of [users] and [api_keys] that the dependency reads or
    writes. *)
Record User := {
  user_id : Z;
  user_is_active : bool
}.

Record ApiKey := {
  key_id : Z;
  key_user_id : Z;
  key : string;
  key_is_active : bool;
  expires_at : option Z;
  last_used_at : option Z
}.

Record tables := {
  users : list User;
  api_keys : list ApiKey
}.

(** How the dependency ends: the key it returns, the [HTTPException] it
    raises, or the [AttributeError] of [api_key.user.is_active] when the
    key's user is gone. *)
Inductive verdict :=
| Granted (api_key : ApiKey)
| Denied (status : Z) (detail : string)
| AttributeError.

(** The truth value of an [Optional[str]]. *)
Definition truthy (o : option string) : bool :=
  match o with
  | Some v => negb (String.eqb v EmptyString)
  | None => false
  end.

(** [a or b] *)
Definition py_or (a b : option string) : option string :=
  if truthy a then a else b.

(** [api_key.expires_at and api_key.expires_at < now] *)
Definition expired (now : Z) (k : ApiKey) : bool :=
  match expires_at k with
  | Some t => (t <? now)%Z
  | None => false
  end.

(** The filter of the query: [ApiKey.key == api_key_str, ApiKey.is_active == True]. *)
Definition matches (api_key_str : string) (k : ApiKey) : bool :=
  String.eqb (key k) api_key_str && key_is_active k.

(** [api_key.user], through the foreign key. *)
Definition user_of (db : tables) (k : ApiKey) : option User :=
  List.find (λ u, (user_id u =? key_user_id k)%Z) (users db).

Definition stamp (now : Z) (k : ApiKey) : ApiKey :=
  {| key_id := key_id k; key_user_id := key_user_id k; key := key k;
     key_is_active := key_is_active k; expires_at := expires_at k;
     last_used_at := Some now |}.

(** The row that [first()] returned is the one an assignment to the
    object changes at [db.commit()]. *)
Fixpoint update_first {A} (p : A → bool) (f : A → A) (l : list A) : list A :=
  match l with
  | [] => []
  | x :: l' => if p x then f x :: l' else x :: update_first p f l'
  end.

Definition verify_api_key (now now' : Z) (x_api_key query_api_key : option string)
    (db : tables) : verdict * tables :=
  let api_key_str := py_or x_api_key query_api_key in
  if negb (truthy api_key_str) then (Denied 401 "API key required", db)
  else
    let wanted := default EmptyString api_key_str in
    match List.find (matches wanted) (api_keys db) with
    | None => (Denied 401 "Invalid API key", db)
    | Some api_key =>
        if expired now api_key then (Denied 401 "API key has expired", db)
        else
          match user_of db api_key with
          | None => (AttributeError, db)
          | Some user =>
              if negb (user_is_active user) then (Denied 403 "Inactive user", db)
              else
                (Granted (stamp now' api_key),
                 {| users := users db;
                    api_keys := update_first (matches wanted) (stamp now') (api_keys db) |})
          end
    end.

(** [get_current_active_user], given the user [get_current_user] found. *)
Definition get_current_active_user (current_user : User) : verdict + User :=
  if negb (user_is_active current_user) then inl (Denied 403 "Inactive user")
  else inr current_user.

(** What makes a row usable at [now] with the key string [wanted]. *)
Definition usable (db : tables) (now : Z) (wanted : string) (k : ApiKey) : Prop :=
  key k = wanted ∧ key_is_active k = true
  ∧ (∀ t, expires_at k = Some t → (now ≤ t)%Z)
  ∧ ∃ u, user_of db k = Some u ∧ user_is_active u = true.

(** A row without its stamp. *)
Definition unstamped (k : ApiKey) : ApiKey :=
  {| key_id := key_id k; key_user_id := key_user_id k; key := key k;
     key_is_active := key_is_active k; expires_at := expires_at k;
     last_used_at := None |}.

End Dependencies.

(** ** The text route: the dependency, then the handler *)

Module Routes.

(** The caller the handler sees: [api_key.id] and [api_key.user.id]. *)
Definition caller (k : Dependencies.ApiKey) : Endpoints.ApiKey :=
  {| Endpoints.key_id := Dependencies.key_id k;
     Endpoints.key_user_id := Dependencies.key_user_id k |}.

(** How a request to a route ends: in the dependency, or with what the
    handler did. *)
Inductive reply (A : Type) :=
| Refused (v : Dependencies.verdict)
| Handled (o : Endpoints.outcome A).
Arguments Refused {A} v.
Arguments Handled {A} o.

Record world := {
  keys : Dependencies.tables;
  data : Endpoints.database;
  service : ModelService
}.

(** [POST /text-generation]: [Depends(verify_api_key)] is resolved before
    the handler is called, and the handler is not called when it raises. *)
Definition text_generation (E : Env) (now now' : Z)
    (x_api_key query_api_key : option string)
    (request : Endpoints.TextGenerationRequest) (model_name : string) (w : world)
  : reply Endpoints.TextGenerationResponse * world :=
  match Dependencies.verify_api_key now now' x_api_key query_api_key (keys w) with
  | (Dependencies.Granted api_key, keys') =>
      let '(o, data', service') :=
        Endpoints.generate_text E request model_name (data w) (caller api_key) (service w) in
      (Handled o, {| keys := keys'; data := data'; service := service' |})
  | (v, keys') =>
      (Refused v, {| keys := keys'; data := data w; service := service w |})
  end.

End Routes.

(** Tables for the examples: two users, three keys. *)
Module Accounts.

Definition tables : Dependencies.tables :=
  {| Dependencies.users :=
       [ {| Dependencies.user_id := 42; Dependencies.user_is_active := true |};
         {| Dependencies.user_id := 43; Dependencies.user_is_active := false |} ];
     Dependencies.api_keys :=
       [ {| Dependencies.key_id := 7; Dependencies.key_user_id := 42;
            Dependencies.key := "pro_abc"; Dependencies.key_is_active := true;
            Dependencies.expires_at := Some 1000%Z;
            Dependencies.last_used_at := None |};
         {| Dependencies.key_id := 8; Dependencies.key_user_id := 43;
            Dependencies.key := "test_xyz"; Dependencies.key_is_active := true;
            Dependencies.expires_at := None;
            Dependencies.last_used_at := None |};
         {| Dependencies.key_id := 9; Dependencies.key_user_id := 42;
            Dependencies.key := "old_key"; Dependencies.key_is_active := false;
            Dependencies.expires_at := None;
            Dependencies.last_used_at := Some 5%Z |} ] |}.

Definition world : Routes.world :=
  {| Routes.keys := tables; Routes.data := Sample.db; Routes.service := Sample.service |}.

End Accounts.

(** ** [RateLimitMiddleware] of [app/core/security.py]

    The middleware every request passes before it reaches a route. The
    clock is [time.time()]; the code uses a reading only to store it and
    to test [now - timestamp < 60], so the readings are of an arbitrary
    type and the test is a parameter. The header [X-Rate-Limit-Reset],
    computed from the reading, is left out. *)

Module RateLimit.

(** The limits of [app/core/config.py]; the defaults can be overridden
    from the environment. *)
Record Settings := {
  RATE_LIMIT_DEFAULT : Z;
  RATE_LIMIT_FREE_TIER : Z;
  RATE_LIMIT_STARTER : Z;
  RATE_LIMIT_PRO : Z;
  RATE_LIMIT_ENTERPRISE : Z
}.

Definition defaults : Settings :=
  {| RATE_LIMIT_DEFAULT := 100;
     RATE_LIMIT_FREE_TIER := 10;
     RATE_LIMIT_STARTER := 50;
     RATE_LIMIT_PRO := 200;
     RATE_LIMIT_ENTERPRISE := 1000 |}.

(** How [dispatch] ends: the request is passed on untouched (not an API
    route), passed on and answered with the two rate-limit headers, or
    stopped with [HTTPException(429)]. *)
Inductive outcome :=
| Bypassed
| Forwarded (limit remaining : Z)
| Limited.

Record request (time : Type) := {
  path : string;
  x_api_key : option string;
  query_api_key : option string;
  at_time : time
}.
Arguments path {time} r.
Arguments x_api_key {time} r.
Arguments query_api_key {time} r.
Arguments at_time {time} r.

Section Middleware.
Context {time : Type}.
(** [within_minute now timestamp] is [now - timestamp < 60]. *)
Variable within_minute : time → time → bool.
Variable settings : Settings.

(** The chain of [startswith] tests on the key. *)
Definition max_requests (api_key : option string) : Z :=
  if negb (Dependencies.truthy api_key) then RATE_LIMIT_DEFAULT settings
  else
    let k := default EmptyString api_key in
    if PyStr.startswith k "test_" then RATE_LIMIT_FREE_TIER settings
    else if PyStr.startswith k "starter_" then RATE_LIMIT_STARTER settings
    else if PyStr.startswith k "pro_" then RATE_LIMIT_PRO settings
    else if PyStr.startswith k "enterprise_" then RATE_LIMIT_ENTERPRISE settings
    else RATE_LIMIT_DEFAULT settings.

(** [self.request_counts] is a [defaultdict(list)] keyed by the key read
    from the request, which may be [None]: a [gmap (option string) (list time)].
    The timestamps of a key that are still inside the window: *)
Definition recent (now : time) (api_key : option string)
    (request_counts : gmap (option string) (list time)) : list time :=
  List.filter (within_minute now) (default [] (request_counts !! api_key)).

Definition dispatch (r : request time)
    (request_counts : gmap (option string) (list time))
  : outcome * gmap (option string) (list time) :=
  if negb (PyStr.startswith (path r) "/api") then (Bypassed, request_counts)
  else
    let api_key := Dependencies.py_or (x_api_key r) (query_api_key r) in
    let limit := max_requests api_key in
    let now := at_time r in
    let kept := recent now api_key request_counts in
    if (limit <=? Z.of_nat (length kept))%Z
    then (Limited, <[api_key := kept]> request_counts)
    else
      let stored := kept ++ [now] in
      (Forwarded limit (limit - Z.of_nat (length stored)),
       <[api_key := stored]> request_counts).

(** The requests of a run, in the order the middleware sees them. *)
Definition serve (requests : list (request time))
    (request_counts : gmap (option string) (list time))
  : gmap (option string) (list time) :=
  foldl (λ c r, (dispatch r c).2) request_counts requests.

(** No bucket holds more timestamps than the limit of its key. *)
Definition within_limits (c : gmap (option string) (list time)) : Prop :=
  ∀ api_key l, c !! api_key = Some l →
               (Z.of_nat (length l) ≤ Z.max 0 (max_requests api_key))%Z.

End Middleware.

(** A clock that counts seconds, for the examples. *)
Definition seconds_within_minute (now timestamp : Z) : bool :=
  (now - timestamp <? 60)%Z.

Definition at_second (k : string) (t : Z) : request Z :=
  {| path := "/api/models/text-generation"; x_api_key := Some k;
     query_api_key := None; at_time := t |}.

End RateLimit.

(** A step that returns and makes no backend load. *)
Definition silent (m : M unit) : Prop :=
  ∀ s, (m s).1 = Ok tt ∧ load_calls (events (m s).2) = load_calls (events s).

(** * Properties *)

(** ** The string and path helpers on sample inputs *)

Section PathExamples.
Import PyStr OsPath.

Example basename_nested : basename "./models/mistral-7b" = "mistral-7b".
Proof. reflexivity. Qed.

Example basename_trailing_slash : basename "./models/" = EmptyString.
Proof. reflexivity. Qed.

Example splitext_onnx : splitext "resnet50.onnx" = ("resnet50", ".onnx").
Proof. reflexivity. Qed.

Example splitext_dotfile : splitext ".onnx" = (".onnx", EmptyString).
Proof. reflexivity. Qed.

Example splitext_two_dots : splitext "a.b.onnx" = ("a.b", ".onnx").
Proof. reflexivity. Qed.

Example join_plain : join "./models/vision" "resnet50.onnx"
                     = "./models/vision/resnet50.onnx".
Proof. reflexivity. Qed.

Example endswith_onnx :
  endswith "resnet50.onnx" ".onnx" = true ∧ endswith "onnx" ".onnx" = false.
Proof. split; reflexivity. Qed.

Example split_hello :
  split ("  Hello   brave new" +:+ String (Ascii.ascii_of_nat 10) "world ")
  = ["Hello"; "brave"; "new"; "world"].
Proof. reflexivity. Qed.

Example split_blank : split "   " = [] ∧ split EmptyString = [].
Proof. split; reflexivity. Qed.
End PathExamples.

(** ** What each method does to the state *)

Local Arguments String.append : simpl never.
Local Arguments String.eqb : simpl never.

Ltac unfold_m :=
  unfold getitem, logger_info, logger_error in *;
  unfold bind, ret, raise, try_except, gets, modify, lift, invoke in *.

Lemma extend_nil s : extend [] s = s.
Proof. destruct s; unfold extend; simpl. by rewrite app_nil_r. Qed.

Lemma extend_extend evs evs' s : extend evs' (extend evs s) = extend (evs ++ evs') s.
Proof. unfold extend; simpl. by rewrite app_assoc. Qed.

Lemma emit_extend e s : emit e s = extend [e] s.
Proof. reflexivity. Qed.

Lemma same_store_refl s : same_store s s.
Proof. by unfold same_store. Qed.

Lemma same_store_trans s1 s2 s3 : same_store s1 s2 → same_store s2 s3 → same_store s1 s3.
Proof. unfold same_store. intros (-> & -> & ->) (-> & -> & ->). done. Qed.

Lemma same_store_extend evs s : same_store s (extend evs s).
Proof. by unfold same_store. Qed.

Lemma same_store_emit e s : same_store s (emit e s).
Proof. by unfold same_store. Qed.

Create HintDb store.
#[local] Hint Resolve same_store_refl same_store_extend same_store_emit : store.

Lemma materialize_spec E ty p s :
  materialize E ty p s = (materialize_result E ty p, extend (materialize_calls E ty p) s).
Proof.
  unfold materialize_result, materialize_calls, materialize.
  repeat case_match; unfold_m; simpl;
    repeat case_match; simplify_eq; simpl;
    rewrite ?emit_extend, ?extend_extend, ?extend_nil; try reflexivity.
Qed.

(** *** [load_model] *)

Lemma load_model_not_found E name s :
  available_models s !! name = None →
  load_model E name s
  = (Ok false, emit (LogError ("Model " +:+ name +:+ " not found")) s).
Proof. intros H. unfold load_model. unfold_m. simpl. by rewrite H. Qed.

Lemma load_model_already E name s d :
  available_models s !! name = Some d → loaded d = true →
  load_model E name s
  = (Ok true, emit (LogInfo ("Model " +:+ name +:+ " already loaded")) s).
Proof. intros H Hl. unfold load_model. unfold_m. simpl. by rewrite H, Hl. Qed.

Lemma commit_load_spec name d h s :
  available_models s !! name = Some d →
  commit_load name h s = (Ok true, loaded_state name d h s).
Proof.
  intros H. unfold commit_load, set_loaded_flag, loaded_state. unfold_m.
  destruct h; simpl; by rewrite H.
Qed.

Lemma load_model_cold E name s d :
  available_models s !! name = Some d → loaded d = false →
  load_model E name s
  = match materialize_result E (type d) (path d) with
    | Ok h => (Ok true,
               loaded_state name d h (extend (materialize_calls E (type d) (path d)) s))
    | Exc e => (Ok false,
                emit (LogError ("Failed to load model " +:+ name +:+ ": " +:+ exn_str e))
                  (extend (materialize_calls E (type d) (path d)) s))
    end.
Proof.
  intros H Hl. unfold load_model.
  unfold bind at 1. unfold gets at 1. simpl. rewrite H, Hl.
  unfold try_except, bind. rewrite materialize_spec.
  destruct (materialize_result E (type d) (path d)) as [h|e].
  - by rewrite (commit_load_spec name d).
  - reflexivity.
Qed.

(** [load_model] never raises. *)
Lemma load_model_returns E name s : ∃ b, (load_model E name s).1 = Ok b.
Proof.
  destruct (available_models s !! name) as [d|] eqn:H.
  - destruct (loaded d) eqn:Hl.
    + rewrite (load_model_already _ _ _ d) by done. eauto.
    + rewrite (load_model_cold _ _ _ d) by done. case_match; eauto.
  - rewrite load_model_not_found by done. eauto.
Qed.

(** *** [unload_model] *)

Lemma unload_model_not_loaded E name s :
  loaded_models s !! name = None →
  unload_model E name s
  = (Ok false, emit (LogError ("Model " +:+ name +:+ " not loaded")) s).
Proof. intros H. unfold unload_model. unfold_m. simpl. by rewrite H. Qed.

Lemma unload_model_loaded E name s h d :
  loaded_models s !! name = Some h →
  available_models s !! name = Some d →
  unload_model E name s
  = match release_memory E with
    | Ok _ => (Ok true,
               emit (LogInfo ("Successfully unloaded model " +:+ name))
                 (unloaded_state name d s))
    | Exc e => (Ok false,
                emit (LogError ("Failed to unload model " +:+ name +:+ ": " +:+ exn_str e))
                  (unloaded_state name d s))
    end.
Proof.
  intros Hh Hd. unfold unload_model, set_loaded_flag, unloaded_state. unfold_m.
  simpl. rewrite Hh, Hd. simpl. by destruct (release_memory E).
Qed.

Lemma unload_model_unregistered E name s h :
  loaded_models s !! name = Some h →
  available_models s !! name = None →
  unload_model E name s
  = (Ok false,
     emit (LogError ("Failed to unload model " +:+ name +:+ ": "
                     +:+ exn_str (KeyError name)))
       (set_loaded_models (delete name) s)).
Proof.
  intros Hh Hd. unfold unload_model, set_loaded_flag. unfold_m.
  simpl. by rewrite Hh, Hd.
Qed.

(** *** The dispatch methods *)

Lemma ensure_loaded_spec E name s :
  ensure_loaded E name s
  = match loaded_models s !! name with
    | None => load_model E name s
    | Some _ => (Ok true, s)
    end.
Proof. unfold ensure_loaded. unfold_m. simpl. by destruct (loaded_models s !! name). Qed.

Lemma ensure_loaded_returns E name s : ∃ b, (ensure_loaded E name s).1 = Ok b.
Proof.
  rewrite ensure_loaded_spec. destruct (loaded_models s !! name); eauto.
  apply load_model_returns.
Qed.

Ltac run_dispatch :=
  unfold_m; simpl;
  repeat (case_match; simplify_eq; simpl in *; eauto with store).

(** Past [ensure_loaded], a dispatch method only records events. *)
Lemma generate_text_store E name prompt k s :
  ∃ evs, (generate_text E name prompt k s).2 = extend evs (ensure_loaded E name s).2.
Proof.
  unfold generate_text. unfold bind at 1.
  destruct (ensure_loaded E name s) as [[ready|e] s1] eqn:Hr; simpl;
    [| by exists []; rewrite extend_nil].
  destruct ready; simpl; [| by exists []; rewrite extend_nil].
  unfold_m; simpl.
  repeat (case_match; simplify_eq; simpl in * ).
  all: rewrite ?emit_extend, ?extend_extend.
  all: try (eexists; reflexivity).
  all: by exists []; rewrite extend_nil.
Qed.

Lemma generate_image_store E name prompt s :
  ∃ evs, (generate_image E name prompt s).2 = extend evs (ensure_loaded E name s).2.
Proof.
  unfold generate_image. unfold bind at 1.
  destruct (ensure_loaded E name s) as [[ready|e] s1] eqn:Hr; simpl;
    [| by exists []; rewrite extend_nil].
  destruct ready; simpl; [| by exists []; rewrite extend_nil].
  unfold_m; simpl.
  repeat (case_match; simplify_eq; simpl in * ).
  all: rewrite ?emit_extend, ?extend_extend.
  all: try (eexists; reflexivity).
  all: by exists []; rewrite extend_nil.
Qed.

Lemma run_onnx_model_store E name inputs s :
  ∃ evs, (run_onnx_model E name inputs s).2 = extend evs (ensure_loaded E name s).2.
Proof.
  unfold run_onnx_model. unfold bind at 1.
  destruct (ensure_loaded E name s) as [[ready|e] s1] eqn:Hr; simpl;
    [| by exists []; rewrite extend_nil].
  destruct ready; simpl; [| by exists []; rewrite extend_nil].
  unfold_m; simpl.
  repeat (case_match; simplify_eq; simpl in * ).
  all: rewrite ?emit_extend, ?extend_extend.
  all: try (eexists; reflexivity).
  all: by exists []; rewrite extend_nil.
Qed.


(** *** [scan_models] *)

Lemma set_available_extend f evs s :
  set_available_models f (extend evs s) = extend evs (set_available_models f s).
Proof. reflexivity. Qed.

Lemma set_available_compose f g s :
  set_available_models g (set_available_models f s) = set_available_models (g ∘ f) s.
Proof. reflexivity. Qed.

Lemma register_all_app arts arts' m :
  register_all (arts ++ arts') m = register_all arts' (register_all arts m).
Proof. apply foldl_app. Qed.

Lemma register_logged name p ty msg s :
  (register name p ty ;; logger_info msg) s
  = (Ok tt,
     extend [LogInfo msg]
       (set_available_models
          (register_all [ {| art_name := name; art_path := p; art_kind := ty |} ]) s)).
Proof. reflexivity. Qed.

(** The inner loop over the files of one directory. *)
Lemma scan_files_spec root files s :
  ∃ evs,
    for_each files (λ file,
      if PyStr.endswith file ".onnx" then
        register (OsPath.splitext file).1 (OsPath.join root file) "onnx" ;;
        logger_info ("Found ONNX model: " +:+ (OsPath.splitext file).1 +:+ " at "
                     +:+ OsPath.join root file)
      else ret tt) s
    = (Ok tt,
       extend evs
         (set_available_models
            (register_all
               (files ≫= λ file,
                  if PyStr.endswith file ".onnx"
                  then [ {| art_name := (OsPath.splitext file).1;
                            art_path := OsPath.join root file;
                            art_kind := "onnx" |} ]
                  else [])) s)).
Proof.
  revert s. induction files as [|file files IH]; intros s.
  - exists []. simpl. unfold ret. by rewrite extend_nil; destruct s.
  - cbn [for_each]. unfold bind at 1.
    destruct (PyStr.endswith file ".onnx") eqn:Hsfx.
    + rewrite register_logged. destruct (IH (extend [LogInfo ("Found ONNX model: " +:+ (OsPath.splitext file).1 +:+ " at " +:+ OsPath.join root file)] (set_available_models (register_all [ {| art_name := (OsPath.splitext file).1; art_path := OsPath.join root file; art_kind := "onnx" |} ]) s))) as [evs ->].
      eexists. f_equal.
      rewrite set_available_extend, extend_extend, set_available_compose.
      f_equal. cbn [mbind list_bind]. rewrite Hsfx. reflexivity.
    + unfold ret at 1. destruct (IH s) as [evs ->]. exists evs.
      cbn [mbind list_bind]. by rewrite Hsfx.
Qed.

Lemma scan_entry_spec e s :
  ∃ evs,
    scan_entry e s
    = (Ok tt, extend evs (set_available_models (register_all (artifacts_of e)) s)).
Proof.
  destruct e as [[root dirs] files]. unfold scan_entry, artifacts_of.
  unfold bind at 1.
  destruct (bool_decide ("config.json" ∈ files)).
  - rewrite register_logged. unfold bind at 1.
    edestruct scan_files_spec as [evs ->].
    destruct (bool_decide ("model_index.json" ∈ files)).
    + rewrite register_logged. eexists. f_equal.
      rewrite !set_available_extend, !extend_extend, !set_available_compose.
      f_equal. unfold set_available_models. f_equal. simpl.
      by rewrite !register_all_app.
    + unfold ret. eexists. f_equal.
      rewrite !set_available_extend, !extend_extend, !set_available_compose.
      f_equal. unfold set_available_models. f_equal. simpl.
      by rewrite !register_all_app.
  - unfold ret at 1. unfold bind at 1.
    edestruct scan_files_spec as [evs ->].
    destruct (bool_decide ("model_index.json" ∈ files)).
    + rewrite register_logged. eexists. f_equal.
      rewrite !set_available_extend, !extend_extend, !set_available_compose.
      f_equal. unfold set_available_models. f_equal. simpl.
      by rewrite !register_all_app.
    + unfold ret. eexists. f_equal. simpl. by rewrite app_nil_r.
Qed.

Lemma scan_tree_spec tree s :
  ∃ evs,
    for_each tree scan_entry s
    = (Ok tt, extend evs (set_available_models (register_all (artifacts tree)) s)).
Proof.
  revert s. induction tree as [|e tree IH]; intros s.
  - exists []. simpl. unfold ret. rewrite extend_nil. by destruct s.
  - cbn [for_each]. unfold bind at 1.
    destruct (scan_entry_spec e s) as [evs ->].
    edestruct IH as [evs' ->]. eexists. f_equal.
    rewrite !set_available_extend, !extend_extend, !set_available_compose.
    f_equal. unfold set_available_models, artifacts. f_equal. simpl.
    by rewrite register_all_app.
Qed.

Lemma scan_models_present E s :
  path_exists E (model_dir s) = true →
  ∃ evs,
    scan_models E s
    = (Ok tt,
       extend (LogInfo ("Scanning models in " +:+ model_dir s) :: evs)
         (set_available_models (register_all (artifacts (walk E (model_dir s)))) s)).
Proof.
  intros Hex. unfold scan_models. unfold_m. simpl. rewrite Hex. simpl.
  edestruct scan_tree_spec as [evs ->]. exists evs. f_equal.
  unfold extend, set_available_models, emit; simpl. by rewrite <- app_assoc.
Qed.

Lemma scan_models_absent E s :
  path_exists E (model_dir s) = false →
  scan_models E s
  = match makedirs E (model_dir s) with
    | Ok _ => (Ok tt,
               extend [ LogInfo ("Scanning models in " +:+ model_dir s);
                        Call (Makedirs (model_dir s));
                        LogInfo ("Created model directory at " +:+ model_dir s) ] s)
    | Exc e => (Exc e,
                extend [ LogInfo ("Scanning models in " +:+ model_dir s);
                         Call (Makedirs (model_dir s)) ] s)
    end.
Proof.
  intros Hex. unfold scan_models. unfold_m. simpl. rewrite Hex. simpl.
  destruct (makedirs E (model_dir s)); unfold extend, emit; simpl;
    by rewrite <- ?app_assoc.
Qed.

(** *** The registry a scan builds *)

Lemma register_all_notin arts m n :
  n ∉ art_name <$> arts → register_all arts m !! n = m !! n.
Proof.
  revert m. induction arts as [|a arts IH]; intros m Hn; [done|].
  rewrite fmap_cons, not_elem_of_cons in Hn. destruct Hn as [Hne Hn].
  cbn [register_all foldl]. fold (register_all arts (<[art_name a := descriptor_of a]> m)).
  rewrite IH by done. by rewrite lookup_insert_ne.
Qed.

Lemma register_all_last pre a post m :
  art_name a ∉ art_name <$> post →
  register_all (pre ++ a :: post) m !! art_name a = Some (descriptor_of a).
Proof.
  intros Hn. rewrite register_all_app. cbn [register_all foldl].
  fold (register_all post (<[art_name a := descriptor_of a]> (register_all pre m))).
  rewrite register_all_notin by done. apply lookup_insert_eq.
Qed.

Lemma register_all_lookup arts m n d :
  register_all arts m !! n = Some d →
  m !! n = Some d ∨ ∃ a, a ∈ arts ∧ n = art_name a ∧ d = descriptor_of a.
Proof.
  revert m. induction arts as [|a arts IH]; intros m H; [by left|].
  cbn [register_all foldl] in H.
  fold (register_all arts (<[art_name a := descriptor_of a]> m)) in H.
  apply IH in H as [H|(b & Hb & -> & ->)].
  - destruct (decide (art_name a = n)) as [<-|Hne].
    + rewrite lookup_insert_eq in H. simplify_eq. right. exists a.
      split; [apply elem_of_cons; by left|done].
    + rewrite lookup_insert_ne in H by done. by left.
  - right. exists b. rewrite elem_of_cons. split; [by right|done].
Qed.

Lemma register_all_is_Some arts m n :
  is_Some (register_all arts m !! n) ↔ is_Some (m !! n) ∨ n ∈ art_name <$> arts.
Proof.
  revert m. induction arts as [|a arts IH]; intros m.
  - simpl. rewrite elem_of_nil. tauto.
  - cbn [register_all foldl].
    fold (register_all arts (<[art_name a := descriptor_of a]> m)).
    rewrite IH, fmap_cons, elem_of_cons, lookup_insert_is_Some'.
    split; [intros [[->|?]|?]|intros [?|[->|?]]]; auto.
Qed.

Lemma artifacts_of_known e a : a ∈ artifacts_of e → known_type (art_kind a).
Proof.
  destruct e as [[root dirs] files]. unfold artifacts_of, known_type.
  rewrite !elem_of_app, list_elem_of_bind.
  intros [H|[(file & H & _)|H]]; repeat case_match;
    rewrite ?list_elem_of_singleton, ?elem_of_nil in H; try done; subst; simpl; auto.
Qed.

Lemma artifacts_known tree a : a ∈ artifacts tree → known_type (art_kind a).
Proof.
  unfold artifacts. rewrite list_elem_of_bind. intros (e & H & _).
  by eapply artifacts_of_known.
Qed.

Lemma listed_names s :
  listed_name <$> get_available_models s = (map_to_list (available_models s)).*1.
Proof.
  unfold get_available_models. rewrite <- list_fmap_compose.
  apply list_fmap_ext. by intros ? [??].
Qed.

Lemma elem_of_listing s l :
  l ∈ get_available_models s ↔
  ∃ d, available_models s !! listed_name l = Some d
       ∧ listed_type l = type d ∧ listed_loaded l = loaded d.
Proof.
  unfold get_available_models. rewrite list_elem_of_fmap. split.
  - intros ([n d] & -> & H%elem_of_map_to_list). simpl. eauto.
  - intros (d & H & Ht & Hl). exists (listed_name l, d). split.
    + destruct l; simpl in *. by subst.
    + by apply elem_of_map_to_list.
Qed.

Lemma listed_name_registered s n :
  n ∈ listed_name <$> get_available_models s ↔ is_Some (available_models s !! n).
Proof.
  rewrite listed_names, list_elem_of_fmap. split.
  - intros ([k d] & -> & H%elem_of_map_to_list). simpl. eauto.
  - intros [d H]. exists (n, d). split; [done|]. by apply elem_of_map_to_list.
Qed.

(** ** The catalog scan *)

(** C7. When the root directory does not exist and [os.makedirs] creates
    it, [scan_models] returns normally: the constructor yields a service
    with no descriptor and an empty listing, what is recorded is the
    creation of the directory between two info lines and no error line,
    and a scan run on any service in that situation registers nothing. *)
Theorem scan_creates_missing_root (E : Env) (dir : string) :
  path_exists E dir = false →
  makedirs E dir = Ok tt →
  let created := [ LogInfo ("Scanning models in " +:+ dir);
                   Call (Makedirs dir);
                   LogInfo ("Created model directory at " +:+ dir) ] in
  init E dir = (Ok tt, extend created (new_service dir))
  ∧ available_models (init E dir).2 = ∅
  ∧ get_available_models (init E dir).2 = []
  ∧ List.filter is_error created = []
  ∧ ∀ s, model_dir s = dir → scan_models E s = (Ok tt, extend created s).
Proof.
  intros Hex Hmk created.
  assert (Hscan : ∀ s, model_dir s = dir → scan_models E s = (Ok tt, extend created s)).
  { intros s <-. rewrite scan_models_absent by done. by rewrite Hmk. }
  unfold init. rewrite (Hscan (new_service dir)) by done.
  repeat split; try done.
Qed.

Lemma scan_creates_missing_root_witness :
  init Sample.fresh "./models"
  = (Ok tt,
     extend [ LogInfo "Scanning models in ./models";
              Call (Makedirs "./models");
              LogInfo "Created model directory at ./models" ]
       (new_service "./models"))
  ∧ get_available_models (init Sample.fresh "./models").2 = [].
Proof.
  pose proof (scan_creates_missing_root Sample.fresh "./models" eq_refl eq_refl) as H.
  simpl in H. destruct H as (H1 & _ & H3 & _). split; [exact H1 | exact H3].
Defined.

(** C6. After the scan of any tree the listing has exactly one entry per
    resolved name: the names listed are pairwise distinct and are the names
    the artifacts of the tree resolve to. When several artifacts resolve to
    one name, the registry holds the path and type of the one scanned last,
    not loaded, and the listing shows that name with that type and no
    other entry under that name. *)
Theorem scan_lists_each_name_once_last_wins (E : Env) (dir : string) :
  path_exists E dir = true →
  ∃ s,
    init E dir = (Ok tt, s)
    ∧ NoDup (listed_name <$> get_available_models s)
    ∧ (∀ n, n ∈ listed_name <$> get_available_models s
            ↔ n ∈ art_name <$> artifacts (walk E dir))
    ∧ (∀ (pre : list artifact) a post,
         artifacts (walk E dir) = pre ++ a :: post →
         art_name a ∉ art_name <$> post →
         available_models s !! art_name a
         = Some {| path := art_path a; type := art_kind a; loaded := false |}
         ∧ ∀ l, listed_name l = art_name a →
                (l ∈ get_available_models s
                 ↔ l = {| listed_name := art_name a; listed_type := art_kind a;
                          listed_loaded := false |})).
Proof.
  intros Hex. unfold init.
  destruct (scan_models_present E (new_service dir) Hex) as [evs ->].
  eexists. split; [reflexivity|]. simpl.
  set (s := extend _ _).
  assert (Hm : available_models s = register_all (artifacts (walk E dir)) ∅) by done.
  split; [|split].
  - rewrite listed_names. apply NoDup_fst_map_to_list.
  - intros n. rewrite listed_name_registered, Hm, register_all_is_Some.
    rewrite lookup_empty. split; [intros [[? ?]|?]|]; by auto.
  - intros pre a post Harts Hlast.
    assert (Ha : available_models s !! art_name a = Some (descriptor_of a)).
    { rewrite Hm, Harts. by apply register_all_last. }
    split; [exact Ha|]. intros l Hl. rewrite elem_of_listing, Hl, Ha. split.
    + intros (d & [= <-] & Ht & Hld). destruct l; simpl in *. by subst.
    + intros ->. exists (descriptor_of a). by simpl.
Qed.

Lemma scan_lists_each_name_once_last_wins_witness :
  ∃ s,
    init Sample.world "./models" = (Ok tt, s)
    ∧ NoDup (listed_name <$> get_available_models s)
    ∧ (∀ n, n ∈ listed_name <$> get_available_models s
            ↔ n ∈ art_name <$> artifacts (walk Sample.world "./models")).
Proof.
  destruct (scan_lists_each_name_once_last_wins Sample.world "./models" eq_refl)
    as (s & H1 & H2 & H3 & _).
  exists s. repeat split; assumption || apply H3.
Defined.

(** Two artifacts under one name: a directory [bert] with [config.json]
    and, scanned after it, a file [bert.onnx]. The listing shows one
    [bert], the ONNX one. *)
Example scan_collision :
  let E := Sample.with_tree [ ("./models", ["bert"; "zoo"], []);
                              ("./models/bert", [], ["config.json"]);
                              ("./models/zoo", [], ["bert.onnx"]) ] in
  get_available_models (init E "./models").2
  = [ {| listed_name := "bert"; listed_type := "onnx"; listed_loaded := false |} ]
  ∧ available_models (init E "./models").2 !! "bert"
    = Some {| path := "./models/zoo/bert.onnx"; type := "onnx"; loaded := false |}.
Proof. split; vm_compute; reflexivity. Qed.

(** The scenario of the specification: a root that holds
    [mistral-7b/config.json] and nothing else. *)
Example scan_mistral :
  let E := Sample.with_tree [ ("./models", ["mistral-7b"], []);
                              ("./models/mistral-7b", [], ["config.json"]) ] in
  get_available_models (init E "./models").2
  = [ {| listed_name := "mistral-7b"; listed_type := "transformers";
         listed_loaded := false |} ].
Proof. vm_compute. reflexivity. Qed.

(** ** The flag and the handle *)

Lemma well_formed_store s s' : same_store s s' → well_formed s → well_formed s'.
Proof.
  intros (_ & Hl & Ha) [H1 H2 H3]. split; rewrite <- ?Hl, <- ?Ha; done.
Qed.

Lemma flag_iff_handle_store s s' : same_store s s' → flag_iff_handle s → flag_iff_handle s'.
Proof.
  intros (_ & Hl & Ha) H n. rewrite <- Hl, <- Ha. apply H.
Qed.

Lemma materialize_result_known E ty p h :
  known_type ty → materialize_result E ty p = Ok h → is_Some h.
Proof.
  unfold materialize_result, materialize.
  intros [-> | [-> | ->]]; simpl; unfold_m; simpl;
    repeat case_match; simpl; intros; simplify_eq; eauto.
Qed.

(** A raise inside [materialize] comes from one of the three branches. *)
Lemma materialize_result_raises E ty p e :
  materialize_result E ty p = Exc e → known_type ty.
Proof.
  unfold materialize_result, materialize, known_type.
  destruct (String.eqb ty "transformers") eqn:H1; [apply String.eqb_eq in H1; auto|].
  destruct (String.eqb ty "onnx") eqn:H2; [apply String.eqb_eq in H2; auto|].
  destruct (String.eqb ty "stable-diffusion") eqn:H3; [apply String.eqb_eq in H3; auto|].
  done.
Qed.

Lemma load_model_effect E name s :
  well_formed s → load_effect name s (load_model E name s).2.
Proof.
  intros Hwf. destruct (available_models s !! name) as [d|] eqn:Hd.
  - destruct (loaded d) eqn:Hl.
    + rewrite (load_model_already _ _ _ d) by done. left. simpl. auto with store.
    + rewrite (load_model_cold _ _ _ d) by done.
      destruct (materialize_result E (type d) (path d)) as [h|e] eqn:Hm.
      * destruct (materialize_result_known _ _ _ _ (wf_types _ Hwf _ _ Hd) Hm) as [dict ->].
        right. exists d, dict. by simpl.
      * left. simpl. by unfold same_store.
  - rewrite load_model_not_found by done. left. simpl. auto with store.
Qed.

Lemma unload_model_effect E name s :
  well_formed s → unload_effect name s (unload_model E name s).2.
Proof.
  intros Hwf. destruct (loaded_models s !! name) as [h|] eqn:Hh.
  - destruct (wf_registered _ Hwf name) as [d Hd]; [by rewrite Hh|].
    rewrite (unload_model_loaded _ _ _ h d) by done.
    right. exists d. rewrite Hh. destruct (release_memory E); simpl; eauto 10.
  - rewrite unload_model_not_loaded by done. left. simpl. auto with store.
Qed.

Lemma ensure_loaded_effect E name s :
  well_formed s → load_effect name s (ensure_loaded E name s).2.
Proof.
  intros Hwf. rewrite ensure_loaded_spec. destruct (loaded_models s !! name).
  - left. simpl. auto with store.
  - by apply load_model_effect.
Qed.

Lemma load_effect_extend name evs s s' :
  load_effect name s s' → load_effect name s (extend evs s').
Proof.
  intros [H|(d & dict & ?)]; [left|right; exists d, dict; by simpl].
  eapply same_store_trans; eauto with store.
Qed.

Lemma load_effect_well_formed name s s' :
  load_effect name s s' → well_formed s → well_formed s'.
Proof.
  intros [H|(d & dict & Hd & Hl & _ & Hlm & Ham)] Hwf; [by eapply well_formed_store|].
  destruct Hwf as [H1 H2 H3]. split.
  - intros n d'. rewrite Ham, lookup_insert_Some.
    intros [[<- <-]|[_ H]]; simpl; eauto.
  - intros n d'. rewrite Ham, Hlm, lookup_insert_Some, lookup_insert_is_Some'.
    intros [[<- <-]|[_ H]]; eauto.
  - intros n. rewrite Ham, Hlm, !lookup_insert_is_Some'. intros [->|H]; eauto.
Qed.

Lemma load_effect_flag_iff_handle name s s' :
  load_effect name s s' → flag_iff_handle s → flag_iff_handle s'.
Proof.
  intros [H|(d & dict & Hd & Hl & _ & Hlm & Ham)] Hinv; [by eapply flag_iff_handle_store|].
  intros n. rewrite Ham, Hlm, lookup_insert_is_Some'.
  destruct (decide (name = n)) as [<-|Hne].
  - rewrite lookup_insert_eq. split; [auto|]. intros _. eexists. split; [done|done].
  - rewrite lookup_insert_ne by done. rewrite (Hinv n). split; [auto|intros [?|?]; done].
Qed.

Lemma unload_effect_well_formed name s s' :
  unload_effect name s s' → well_formed s → well_formed s'.
Proof.
  intros [H|(d & Hd & Hh & _ & Hlm & Ham)] Hwf; [by eapply well_formed_store|].
  destruct Hwf as [H1 H2 H3]. split.
  - intros n d'. rewrite Ham, lookup_insert_Some.
    intros [[<- <-]|[_ H]]; simpl; eauto.
  - intros n d'. rewrite Ham, Hlm, lookup_insert_Some.
    intros [[<- <-]|[Hne H]]; [done|]. rewrite lookup_delete_ne by done. eauto.
  - intros n. rewrite Ham, Hlm, lookup_insert_is_Some'.
    destruct (decide (name = n)) as [<-|Hne]; [auto|].
    rewrite lookup_delete_ne by done. auto.
Qed.

Lemma unload_effect_flag_iff_handle name s s' :
  unload_effect name s s' → flag_iff_handle s → flag_iff_handle s'.
Proof.
  intros [H|(d & Hd & Hh & _ & Hlm & Ham)] Hinv; [by eapply flag_iff_handle_store|].
  intros n. rewrite Ham, Hlm.
  destruct (decide (name = n)) as [<-|Hne].
  - rewrite lookup_insert_eq, lookup_delete_eq. split.
    + intros (d' & [= <-] & Hl). done.
    + intros [? ?]. done.
  - rewrite lookup_insert_ne, lookup_delete_ne by done. apply Hinv.
Qed.

Lemma register_all_well_formed arts s :
  (∀ a, a ∈ arts → known_type (art_kind a)) →
  well_formed s → well_formed (set_available_models (register_all arts) s).
Proof.
  intros Hk [H1 H2 H3]. split; simpl.
  - intros n d [H|(a & Ha & -> & ->)]%register_all_lookup; [eauto|].
    simpl. auto.
  - intros n d [H|(a & Ha & -> & ->)]%register_all_lookup; [eauto|done].
  - intros n Hn. apply register_all_is_Some. auto.
Qed.

Lemma scan_models_well_formed E s :
  well_formed s → well_formed (scan_models E s).2.
Proof.
  intros Hwf. destruct (path_exists E (model_dir s)) eqn:Hex.
  - destruct (scan_models_present E s Hex) as [evs ->]. simpl.
    eapply well_formed_store; [apply same_store_extend|].
    apply register_all_well_formed; [|done]. intros a. apply artifacts_known.
  - rewrite scan_models_absent by done.
    destruct (makedirs E (model_dir s)); simpl;
      (eapply well_formed_store; [apply same_store_extend|done]).
Qed.

Lemma new_service_well_formed dir : well_formed (new_service dir).
Proof.
  split; simpl.
  - intros n d H. by rewrite lookup_empty in H.
  - intros n d H. by rewrite lookup_empty in H.
  - intros n [h H]. by rewrite lookup_empty in H.
Qed.

Lemma init_well_formed E dir : well_formed (init E dir).2.
Proof. apply scan_models_well_formed, new_service_well_formed. Qed.

Lemma init_flag_iff_handle E dir : flag_iff_handle (init E dir).2.
Proof.
  unfold init. intros n.
  assert (Hlm : loaded_models (scan_models E (new_service dir)).2 = ∅).
  { destruct (path_exists E dir) eqn:Hex.
    - by destruct (scan_models_present E (new_service dir) Hex) as [evs ->].
    - rewrite scan_models_absent by done. by destruct (makedirs E _). }
  assert (Ham : ∀ d, available_models (scan_models E (new_service dir)).2 !! n = Some d →
                     loaded d = false).
  { intros d. destruct (path_exists E dir) eqn:Hex.
    - destruct (scan_models_present E (new_service dir) Hex) as [evs ->]. simpl.
      intros [H|(a & _ & _ & ->)]%register_all_lookup; [by rewrite lookup_empty in H|done].
    - rewrite scan_models_absent by done.
      destruct (makedirs E _); simpl; by rewrite lookup_empty. }
  rewrite Hlm, lookup_empty. split.
  - intros (d & Hd & Hl). apply Ham in Hd. congruence.
  - by intros [? ?].
Qed.

Lemma perform_well_formed E o s : well_formed s → well_formed (perform E o s).
Proof.
  intros Hwf. destruct o as [|n|n|n p k|n p|n i]; simpl.
  - by apply scan_models_well_formed.
  - eapply load_effect_well_formed; [by apply load_model_effect|done].
  - eapply unload_effect_well_formed; [by apply unload_model_effect|done].
  - destruct (generate_text_store E n p k s) as [evs ->].
    eapply load_effect_well_formed; [|done].
    by apply load_effect_extend, ensure_loaded_effect.
  - destruct (generate_image_store E n p s) as [evs ->].
    eapply load_effect_well_formed; [|done].
    by apply load_effect_extend, ensure_loaded_effect.
  - destruct (run_onnx_model_store E n i s) as [evs ->].
    eapply load_effect_well_formed; [|done].
    by apply load_effect_extend, ensure_loaded_effect.
Qed.

Lemma perform_flag_iff_handle E o s :
  is_scan o = false → well_formed s → flag_iff_handle s → flag_iff_handle (perform E o s).
Proof.
  intros Ho Hwf Hinv. destruct o as [|n|n|n p k|n p|n i]; simpl; [done|..].
  - eapply load_effect_flag_iff_handle; [by apply load_model_effect|done].
  - eapply unload_effect_flag_iff_handle; [by apply unload_model_effect|done].
  - destruct (generate_text_store E n p k s) as [evs ->].
    eapply load_effect_flag_iff_handle; [|done].
    by apply load_effect_extend, ensure_loaded_effect.
  - destruct (generate_image_store E n p s) as [evs ->].
    eapply load_effect_flag_iff_handle; [|done].
    by apply load_effect_extend, ensure_loaded_effect.
  - destruct (run_onnx_model_store E n i s) as [evs ->].
    eapply load_effect_flag_iff_handle; [|done].
    by apply load_effect_extend, ensure_loaded_effect.
Qed.

Lemma reachable_well_formed rescan s : reachable rescan s → well_formed s.
Proof.
  induction 1 as [E dir s Hinit|E o s _ IH _].
  - change s with (Ok tt, s).2. rewrite <- Hinit. apply init_well_formed.
  - by apply perform_well_formed.
Qed.

Lemma reachable_flag_iff_handle s : reachable false s → flag_iff_handle s.
Proof.
  induction 1 as [E dir s Hinit|E o s Hs IH Ho].
  - change s with (Ok tt, s).2. rewrite <- Hinit. apply init_flag_iff_handle.
  - apply perform_flag_iff_handle; [|by eapply reachable_well_formed|done].
    destruct (is_scan o); [by specialize (Ho eq_refl)|done].
Qed.

(** C3, as the code has it. In every state of the service the flag of a
    name is up only if the name has a handle, and a name has at most one
    handle. As long as [scan_models] runs only in the constructor, the flag
    is up exactly when the handle exists. *)
Theorem flag_matches_handle (rescan : bool) (s : ModelService) :
  reachable rescan s →
  (∀ name d, available_models s !! name = Some d → loaded d = true →
             is_Some (loaded_models s !! name))
  ∧ (∀ name h1 h2, loaded_models s !! name = Some h1 →
                   loaded_models s !! name = Some h2 → h1 = h2)
  ∧ (rescan = false → flag_iff_handle s).
Proof.
  intros Hs. split; [|split].
  - apply (wf_flag s). by eapply reachable_well_formed.
  - congruence.
  - intros ->. by apply reachable_flag_iff_handle.
Qed.

Lemma flag_matches_handle_witness :
  let s := perform Sample.world (Unload "sd15")
             (perform Sample.world (GenerateText "mistral-7b" "Hello" 10)
                (perform Sample.world (Load "sd15") Sample.service)) in
  reachable false s ∧ flag_iff_handle s.
Proof.
  assert (Hs : reachable false
                 (perform Sample.world (Unload "sd15")
                    (perform Sample.world (GenerateText "mistral-7b" "Hello" 10)
                       (perform Sample.world (Load "sd15") Sample.service)))).
  { repeat (apply reachable_step; [|discriminate]).
    apply (reachable_init false Sample.world "./models"). reflexivity. }
  split; [exact Hs|].
  exact (proj2 (proj2 (flag_matches_handle false _ Hs)) eq_refl).
Defined.

(** C3 fails as stated: a second [scan_models] writes [loaded: False] over
    the descriptor of a model that is loaded and leaves its handle where
    it is. *)
Lemma rescan_lowers_flag_of_loaded_model :
  let s := perform Sample.world Scan
             (perform Sample.world (Load "mistral-7b") Sample.service) in
  reachable true s
  ∧ loaded <$> available_models s !! "mistral-7b" = Some false
  ∧ is_Some (loaded_models s !! "mistral-7b")
  ∧ ¬ flag_iff_handle s.
Proof.
  assert (Hf : loaded <$> available_models (perform Sample.world Scan
             (perform Sample.world (Load "mistral-7b") Sample.service)) !! "mistral-7b" = Some false)
    by (vm_compute; reflexivity).
  assert (Hh : is_Some (loaded_models (perform Sample.world Scan
             (perform Sample.world (Load "mistral-7b") Sample.service)) !! "mistral-7b"))
    by (vm_compute; eauto).
  cbv zeta. split; [|split; [exact Hf|split; [exact Hh|]]].
  - repeat (apply reachable_step; [|done]).
    apply (reachable_init true Sample.world "./models"). reflexivity.
  - intros Hinv. apply Hinv in Hh as (d & Hd & Hl).
    rewrite Hd in Hf. simpl in Hf. congruence.
Qed.

(** ** Loading and unloading *)

Lemma load_calls_app evs evs' : load_calls (evs ++ evs') = load_calls evs ++ load_calls evs'.
Proof. apply List.filter_app. Qed.

(** Each branch of [materialize] starts with the call that reads the
    weights, and makes no second one. *)
Lemma materialize_loads_once E ty p :
  known_type ty → length (load_calls (materialize_calls E ty p)) = 1.
Proof.
  unfold materialize_calls, materialize.
  intros [-> | [-> | ->]]; simpl; unfold_m; simpl;
    repeat case_match; simpl; simplify_eq; reflexivity.
Qed.

Lemma load_model_cold_events E name s d :
  available_models s !! name = Some d → loaded d = false →
  ∃ evs, events (load_model E name s).2
         = events s ++ materialize_calls E (type d) (path d) ++ evs.
Proof.
  intros Hd Hl. rewrite (load_model_cold _ _ _ d) by done.
  destruct (materialize_result E (type d) (path d)) as [[h|]|e]; simpl;
    rewrite <- ?app_assoc; eexists; reflexivity.
Qed.

(** C4, as the code has it. When [load_model] reaches the library for a
    registered name and the library raises, the call returns [False]; the
    registry is as it was, so the flag is still down and path and type are
    untouched; [loaded_models] is as it was, so the name has no handle
    after the call wherever the flag stood for the handle before it, as it
    does in every state reached without a second scan; and the next
    [load_model] for the name, in whatever world it runs, calls the library
    again and succeeds or fails by that attempt alone. *)
Theorem failed_load_is_retried (E E' : Env) (name : string) (s : ModelService)
    (d : descriptor) (e : exn) :
  available_models s !! name = Some d →
  loaded d = false →
  materialize_result E (type d) (path d) = Exc e →
  ∃ s1,
    load_model E name s = (Ok false, s1)
    ∧ available_models s1 = available_models s
    ∧ loaded_models s1 = loaded_models s
    ∧ (flag_iff_handle s → loaded_models s1 !! name = None)
    ∧ (reachable false s → loaded_models s1 !! name = None)
    ∧ events s1
      = events s ++ materialize_calls E (type d) (path d)
        ++ [LogError ("Failed to load model " +:+ name +:+ ": " +:+ exn_str e)]
    ∧ length (load_calls (materialize_calls E' (type d) (path d))) = 1
    ∧ load_model E' name s1
      = match materialize_result E' (type d) (path d) with
        | Ok h =>
            (Ok true,
             loaded_state name d h (extend (materialize_calls E' (type d) (path d)) s1))
        | Exc e' =>
            (Ok false,
             emit (LogError ("Failed to load model " +:+ name +:+ ": " +:+ exn_str e'))
               (extend (materialize_calls E' (type d) (path d)) s1))
        end.
Proof.
  intros Hd Hl Hm.
  assert (Hnone : flag_iff_handle s → loaded_models s !! name = None).
  { intros Hinv. destruct (loaded_models s !! name) eqn:Hh; [|done].
    assert (is_Some (loaded_models s !! name)) as Hs by (by rewrite Hh).
    apply Hinv in Hs as (d' & Hd' & Hl'). congruence. }
  eexists. split.
  { rewrite (load_model_cold _ _ _ d) by done. by rewrite Hm. }
  simpl. repeat split.
  - exact Hnone.
  - intros Hs. by apply Hnone, reachable_flag_iff_handle.
  - by rewrite <- app_assoc.
  - apply materialize_loads_once. by eapply materialize_result_raises.
  - by apply load_model_cold.
Qed.

Lemma failed_load_is_retried_witness :
  ∃ s1,
    load_model Sample.broken "mistral-7b" Sample.service = (Ok false, s1)
    ∧ available_models s1 = available_models Sample.service
    ∧ loaded_models s1 = loaded_models Sample.service
    ∧ loaded_models s1 !! "mistral-7b" = None
    ∧ (load_model Sample.world "mistral-7b" s1).1 = Ok true.
Proof.
  destruct (failed_load_is_retried Sample.broken Sample.world "mistral-7b" Sample.service
              {| path := "./models/mistral-7b"; type := "transformers"; loaded := false |}
              (LibraryError "corrupt checkpoint") eq_refl eq_refl eq_refl)
    as (s1 & H1 & H2 & H3 & _ & H5 & _ & _ & H8).
  exists s1. repeat split; try assumption.
  - apply H5, (reachable_init false Sample.world "./models"). reflexivity.
  - by rewrite H8.
Defined.

(** C4 fails as stated: once a second [scan_models] has lowered the flag of
    a loaded model, a [load_model] for it goes to the library again, and
    when the library raises the call returns [False] with the flag down and
    the old handle still in [loaded_models]. *)
Lemma failed_load_leaves_stale_handle :
  let s := perform Sample.world Scan
             (perform Sample.world (Load "mistral-7b") Sample.service) in
  let r := load_model Sample.broken "mistral-7b" s in
  reachable true s
  ∧ available_models s !! "mistral-7b"
    = Some {| path := "./models/mistral-7b"; type := "transformers"; loaded := false |}
  ∧ materialize_result Sample.broken "transformers" "./models/mistral-7b"
    = Exc (LibraryError "corrupt checkpoint")
  ∧ r.1 = Ok false
  ∧ available_models r.2 !! "mistral-7b"
    = Some {| path := "./models/mistral-7b"; type := "transformers"; loaded := false |}
  ∧ loaded_models r.2 !! "mistral-7b" = Some {[ "model" := 1; "tokenizer" := 2 ]}
  ∧ ¬ (loaded_models r.2 !! "mistral-7b" = None).
Proof.
  assert (Hh : loaded_models
                 (load_model Sample.broken "mistral-7b"
                    (perform Sample.world Scan
                       (perform Sample.world (Load "mistral-7b") Sample.service))).2
               !! "mistral-7b" = Some {[ "model" := 1; "tokenizer" := 2 ]})
    by (vm_compute; reflexivity).
  cbv zeta. split; [|split; [|split; [|split; [|split; [|split; [exact Hh|]]]]]].
  - repeat (apply reachable_step; [|done]).
    apply (reachable_init true Sample.world "./models"). reflexivity.
  - vm_compute; reflexivity.
  - vm_compute; reflexivity.
  - vm_compute; reflexivity.
  - vm_compute; reflexivity.
  - rewrite Hh. discriminate.
Qed.

Lemma fresh_load_extend E name d evs s s' :
  fresh_load E name d s s' → fresh_load E name d s (extend evs s').
Proof.
  intros [[evs0 Hev] Hh]. split; [|exact Hh].
  exists (evs0 ++ evs). simpl. rewrite Hev. by rewrite <- !app_assoc.
Qed.

Lemma ensure_loaded_fresh E name d s :
  loaded_models s !! name = None →
  available_models s !! name = Some d → loaded d = false →
  fresh_load E name d s (ensure_loaded E name s).2.
Proof.
  intros Hh Hd Hl. rewrite ensure_loaded_spec, Hh. split.
  - by apply load_model_cold_events.
  - intros h Hm. rewrite (load_model_cold _ _ _ d), Hm by done. simpl.
    by rewrite !lookup_insert_eq.
Qed.

(** The three dispatch methods load a cold registered model first. *)
Lemma dispatch_fresh E name d s prompt k inputs :
  loaded_models s !! name = None →
  available_models s !! name = Some d → loaded d = false →
  fresh_load E name d s (generate_text E name prompt k s).2
  ∧ fresh_load E name d s (generate_image E name prompt s).2
  ∧ fresh_load E name d s (run_onnx_model E name inputs s).2.
Proof.
  intros Hh Hd Hl. pose proof (ensure_loaded_fresh E name d s Hh Hd Hl) as Hf.
  destruct (generate_text_store E name prompt k s) as [evs1 ->].
  destruct (generate_image_store E name prompt s) as [evs2 ->].
  destruct (run_onnx_model_store E name inputs s) as [evs3 ->].
  split; [|split]; by apply fresh_load_extend.
Qed.

(** A [load_model] that returned [True] leaves the name registered, of a
    known type, with a handle. *)
Lemma load_model_true E name s s1 :
  well_formed s → load_model E name s = (Ok true, s1) →
  is_Some (loaded_models s1 !! name)
  ∧ ∃ d, available_models s1 !! name = Some d ∧ known_type (type d).
Proof.
  intros Hwf Hload. destruct (available_models s !! name) as [d|] eqn:Hd.
  - pose proof (wf_types _ Hwf _ _ Hd) as Hk.
    destruct (loaded d) eqn:Hl.
    + rewrite (load_model_already _ _ _ d) in Hload by done. simplify_eq. simpl.
      split; [by eapply wf_flag|eauto].
    + rewrite (load_model_cold _ _ _ d) in Hload by done.
      destruct (materialize_result E (type d) (path d)) as [h|e] eqn:Hm; [|done].
      destruct (materialize_result_known _ _ _ _ Hk Hm) as [dict ->].
      simplify_eq. simpl. rewrite !lookup_insert_eq. eauto.
  - rewrite load_model_not_found in Hload by done. done.
Qed.

(** C5. [unload_model] fails for every name without a handle, in any
    state. After a [load_model] that succeeded, [unload_model] leaves the
    name registered with its flag down and without a handle, and the next
    dispatch for the name, whichever of the three methods it is, loads
    the model afresh through exactly one backend load. *)
Theorem unload_then_dispatch_reloads (E1 E2 E3 : Env) (name : string) (s : ModelService) :
  (loaded_models s !! name = None →
   unload_model E2 name s
   = (Ok false, emit (LogError ("Model " +:+ name +:+ " not loaded")) s))
  ∧ ∀ rescan s1 r s2,
      reachable rescan s →
      load_model E1 name s = (Ok true, s1) →
      unload_model E2 name s1 = (r, s2) →
      loaded_models s2 !! name = None
      ∧ ∃ d, available_models s2 !! name = Some d
             ∧ loaded d = false
             ∧ length (load_calls (materialize_calls E3 (type d) (path d))) = 1
             ∧ ∀ prompt k inputs,
                 fresh_load E3 name d s2 (generate_text E3 name prompt k s2).2
                 ∧ fresh_load E3 name d s2 (generate_image E3 name prompt s2).2
                 ∧ fresh_load E3 name d s2 (run_onnx_model E3 name inputs s2).2.
Proof.
  split; [apply unload_model_not_loaded|].
  intros rescan s1 r s2 Hreach Hload Hunload.
  apply reachable_well_formed in Hreach.
  destruct (load_model_true _ _ _ _ Hreach Hload) as ([h Hh] & d & Hd & Hk).
  rewrite (unload_model_loaded _ _ _ h d) in Hunload by done.
  assert (Hs2 : same_store (unloaded_state name d s1) s2).
  { destruct (release_memory E2); simplify_eq; by unfold same_store. }
  destruct Hs2 as (_ & Hlm & Ham).
  assert (Hh2 : loaded_models s2 !! name = None).
  { rewrite <- Hlm. simpl. apply lookup_delete_eq. }
  assert (Hd2 : available_models s2 !! name
                = Some {| path := path d; type := type d; loaded := false |}).
  { rewrite <- Ham. simpl. apply lookup_insert_eq. }
  split; [exact Hh2|]. eexists. split; [exact Hd2|]. split; [done|]. split.
  - by apply materialize_loads_once.
  - intros prompt k inputs. by apply dispatch_fresh.
Qed.

Lemma unload_then_dispatch_reloads_witness :
  unload_model Sample.world "never-seen" Sample.service
  = (Ok false, emit (LogError "Model never-seen not loaded") Sample.service)
  ∧ ∃ s2,
      s2 = (unload_model Sample.world "mistral-7b"
              (load_model Sample.world "mistral-7b" Sample.service).2).2
      ∧ loaded_models s2 !! "mistral-7b" = None
      ∧ ∃ d, available_models s2 !! "mistral-7b" = Some d ∧ loaded d = false
             ∧ fresh_load Sample.world "mistral-7b" d s2
                 (generate_text Sample.world "mistral-7b" "Hello" 10 s2).2.
Proof.
  destruct (unload_then_dispatch_reloads Sample.world Sample.world Sample.world
              "never-seen" Sample.service) as [Ha _].
  destruct (unload_then_dispatch_reloads Sample.world Sample.world Sample.world
              "mistral-7b" Sample.service) as [_ Hb].
  split; [exact (Ha eq_refl)|].
  eexists. split; [reflexivity|].
  set (s1 := (load_model Sample.world "mistral-7b" Sample.service).2).
  destruct (Hb false s1 (unload_model Sample.world "mistral-7b" s1).1
              (unload_model Sample.world "mistral-7b" s1).2)
    as (H1 & d & H2 & H3 & _ & H5).
  - apply (reachable_init false Sample.world "./models"). reflexivity.
  - vm_compute. reflexivity.
  - by destruct (unload_model Sample.world "mistral-7b" s1).
  - split; [exact H1|]. exists d. split; [exact H2|]. split; [exact H3|].
    apply (H5 "Hello" 10%Z ∅).
Defined.

(** ** Dispatch against a model of the wrong kind *)

Lemma generate_text_not_ready E name prompt k s s1 :
  ensure_loaded E name s = (Ok false, s1) →
  generate_text E name prompt k s = (Ok None, s1).
Proof. intros H. unfold generate_text. unfold bind at 1. by rewrite H. Qed.

Lemma generate_text_mismatch E name prompt k s s1 d1 :
  ensure_loaded E name s = (Ok true, s1) →
  available_models s1 !! name = Some d1 →
  String.eqb (type d1) "transformers" = false →
  generate_text E name prompt k s
  = (Ok None, emit (LogError ("Model " +:+ name +:+ " is not a text generation model")) s1).
Proof.
  intros H Hd Ht. unfold generate_text. unfold bind at 1. rewrite H. simpl.
  unfold_m. simpl. by rewrite Hd, Ht.
Qed.

(** [load_model] leaves the path and the type of the descriptor alone. *)
Lemma load_model_keeps_descriptor E name s d :
  available_models s !! name = Some d →
  ∃ b s1 d1, load_model E name s = (Ok b, s1)
             ∧ available_models s1 !! name = Some d1
             ∧ type d1 = type d ∧ path d1 = path d.
Proof.
  intros Hd. destruct (loaded d) eqn:Hl.
  - rewrite (load_model_already _ _ _ d) by done. by eexists _, _, d.
  - rewrite (load_model_cold _ _ _ d) by done.
    destruct (materialize_result E (type d) (path d)) as [h|e].
    + eexists _, _, _. split; [done|]. simpl. by rewrite lookup_insert_eq.
    + by eexists _, _, d.
Qed.

Lemma materialize_calls_diffusion E p :
  load_calls (materialize_calls E "stable-diffusion" p)
  = [Call (Pipeline_from_pretrained p)].
Proof.
  unfold materialize_calls, materialize. simpl. unfold_m. simpl.
  repeat case_match; simplify_eq; reflexivity.
Qed.

(** C1, as the code has it. [generate_text] for a name registered as
    'stable-diffusion' always returns [None], but it compares the type
    only after [load_model] has run. If the name has a handle, nothing is
    loaded and only the mismatch is logged. If it has none, [load_model]
    runs first: when it fails the call ends there, and when it succeeds
    the model stays loaded (handle stored, flag up, one backend load
    made) and the mismatch is logged after that. *)
Theorem generate_text_checks_type_after_load (E : Env) (name prompt : string) (k : Z)
    (s : ModelService) (d : descriptor) :
  available_models s !! name = Some d →
  type d = "stable-diffusion" →
  let mismatch := LogError ("Model " +:+ name +:+ " is not a text generation model") in
  let s' := (generate_text E name prompt k s).2 in
  (generate_text E name prompt k s).1 = Ok None
  ∧ (is_Some (loaded_models s !! name) → s' = emit mismatch s)
  ∧ (loaded_models s !! name = None →
     ∃ b s1, load_model E name s = (Ok b, s1)
             ∧ s' = if b then emit mismatch s1 else s1)
  ∧ (loaded_models s !! name = None → loaded d = false →
     ∀ h, materialize_result E (type d) (path d) = Ok (Some h) →
          loaded_models s' !! name = Some h
          ∧ loaded <$> available_models s' !! name = Some true
          ∧ load_calls (events s')
            = load_calls (events s) ++ [Call (Pipeline_from_pretrained (path d))]).
Proof.
  intros Hd Hty mismatch s'. subst s'.
  assert (Hcold : loaded_models s !! name = None →
                  ∃ b s1, load_model E name s = (Ok b, s1)
                          ∧ generate_text E name prompt k s
                            = (Ok None, if b then emit mismatch s1 else s1)).
  { intros Hh. destruct (load_model_keeps_descriptor E name s d Hd)
      as (b & s1 & d1 & Hload & Hd1 & Ht1 & _).
    exists b, s1. split; [done|]. destruct b.
    - eapply generate_text_mismatch; [by rewrite ensure_loaded_spec, Hh|done|].
      by rewrite Ht1, Hty.
    - apply generate_text_not_ready. by rewrite ensure_loaded_spec, Hh. }
  assert (Hwarm : is_Some (loaded_models s !! name) →
                  generate_text E name prompt k s = (Ok None, emit mismatch s)).
  { intros [h Hh]. eapply generate_text_mismatch; [by rewrite ensure_loaded_spec, Hh|done|].
    by rewrite Hty. }
  split; [|split; [|split]].
  - destruct (loaded_models s !! name) eqn:Hh.
    + by rewrite Hwarm.
    + destruct (Hcold eq_refl) as (b & s1 & _ & ->). done.
  - intros Hh. by rewrite Hwarm.
  - intros Hh. destruct (Hcold Hh) as (b & s1 & Hload & ->). eauto.
  - intros Hh Hl h Hm. destruct (Hcold Hh) as (b & s1 & Hload & ->).
    rewrite (load_model_cold _ _ _ d), Hm in Hload by done. simplify_eq. simpl.
    rewrite !lookup_insert_eq. repeat split.
    rewrite !load_calls_app, Hty, materialize_calls_diffusion. simpl.
    by rewrite !app_nil_r.
Qed.

Lemma generate_text_checks_type_after_load_witness :
  (generate_text Sample.world "sd15" "Hello" 10 Sample.service).1 = Ok None
  ∧ ∃ b s1, load_model Sample.world "sd15" Sample.service = (Ok b, s1)
            ∧ (generate_text Sample.world "sd15" "Hello" 10 Sample.service).2
              = if b then emit (LogError "Model sd15 is not a text generation model") s1
                else s1.
Proof.
  destruct (generate_text_checks_type_after_load Sample.world "sd15" "Hello" 10
              Sample.service
              {| path := "./models/sd15"; type := "stable-diffusion"; loaded := false |}
              eq_refl eq_refl) as (H1 & _ & H3 & _).
  split; [exact H1|]. exact (H3 eq_refl).
Defined.

(** C1 fails as stated: on a cold diffusion model [generate_text] loads
    the pipeline, then rejects the request and leaves the model loaded. *)
Lemma generate_text_loads_diffusion_model :
  let s := Sample.service in
  let s' := (generate_text Sample.world "sd15" "Hello" 10 s).2 in
  type <$> available_models s !! "sd15" = Some "stable-diffusion"
  ∧ (generate_text Sample.world "sd15" "Hello" 10 s).1 = Ok None
  ∧ loaded <$> available_models s !! "sd15" = Some false
  ∧ loaded <$> available_models s' !! "sd15" = Some true
  ∧ loaded_models s !! "sd15" = None
  ∧ loaded_models s' !! "sd15" = Some {[ "pipeline" := 4 ]}
  ∧ load_calls (events s) = []
  ∧ load_calls (events s') = [Call (Pipeline_from_pretrained "./models/sd15")].
Proof. cbv zeta. repeat split; vm_compute; reflexivity. Qed.

(** ** Several callers of [load_model] *)

Section Callers.
Import Interleaving.

(** The three steps of one caller, run without interruption, are
    [load_model]. *)
Lemma alone_is_load_model E name s : alone E name s = finish (load_model E name s).
Proof.
  unfold alone. cbn [thread_step].
  destruct (available_models s !! name) as [d|] eqn:Hd.
  - destruct (loaded d) eqn:Hl.
    + by rewrite (load_model_already _ _ _ d).
    + unfold load_model. unfold bind at 1. unfold gets at 1. cbn beta iota.
      rewrite Hd, Hl. cbn [thread_step].
      unfold try_except at 1. unfold bind at 1.
      destruct (materialize E (type d) (path d) s) as [[h|e] s1]; reflexivity.
  - by rewrite load_model_not_found.
Qed.

Lemma run_app E name sched sched' cfg :
  run E name (sched ++ sched') cfg = run E name sched' (run E name sched cfg).
Proof. apply foldl_app. Qed.

(** A caller that is scheduled three times in a row from its entry. *)
Lemma run_three E name (cs : list control) t s :
  cs !! t = Some Entry →
  run E name [t; t; t] (cs, s) = (<[t := (alone E name s).1]> cs, (alone E name s).2).
Proof.
  intros Ht. pose proof (lookup_lt_Some _ _ _ Ht) as Hlen.
  unfold run, alone. cbn [foldl]. unfold step at 3. cbn [fst snd]. rewrite Ht.
  destruct (thread_step E name Entry s) as [c1 s1].
  unfold step at 2. cbn [fst snd]. rewrite list_lookup_insert_eq by done.
  destruct (thread_step E name c1 s1) as [c2 s2].
  unfold step. cbn [fst snd]. rewrite list_lookup_insert_eq by (by rewrite length_insert).
  destruct (thread_step E name c2 s2) as [c3 s3]. cbn [fst snd].
  by rewrite !list_insert_insert_eq.
Qed.

Lemma sequential_from_S t n :
  sequential_from t (S n) = [t; t; t] ++ sequential_from (S t) n.
Proof. reflexivity. Qed.

(** Callers that do not overlap are calls made one after the other. *)
Lemma run_sequential E name k :
  ∀ (finished : list control) s rs s',
    load_model_each (replicate k E) name s = (Ok rs, s') →
    run E name (sequential_from (length finished) k) (finished ++ replicate k Entry, s)
    = (finished ++ (Finished <$> rs), s').
Proof.
  induction k as [|k IH]; intros finished s rs s' Heach.
  - cbn in Heach. unfold ret in Heach. by simplify_eq.
  - cbn [replicate load_model_each] in Heach. unfold bind at 1 in Heach.
    pose proof (alone_is_load_model E name s) as Halone.
    destruct (load_model E name s) as [[b|e] s1]; [|done].
    unfold bind at 1 in Heach.
    destruct (load_model_each (replicate k E) name s1) as [[rs'|e] s2] eqn:Hrest; [|done].
    unfold ret in Heach. simplify_eq.
    rewrite sequential_from_S, run_app, run_three
      by (rewrite lookup_app_r, Nat.sub_diag by done; done).
    rewrite Halone. cbn [finish fst snd].
    replace (<[length finished := Finished b]> (finished ++ replicate (S k) Entry))
      with ((finished ++ [Finished b]) ++ replicate k Entry).
    2:{ rewrite <- (Nat.add_0_r (length finished)) at 1.
        rewrite insert_app_r. cbn. by rewrite <- app_assoc. }
    replace (S (length finished)) with (length (finished ++ [Finished b]))
      by (rewrite length_app; simpl; lia).
    rewrite (IH _ _ _ _ Hrest). by rewrite <- app_assoc.
Qed.

Lemma load_model_each_loaded Es name s d :
  available_models s !! name = Some d → loaded d = true →
  ∃ s', load_model_each Es name s = (Ok (replicate (length Es) true), s')
        ∧ same_store s s'
        ∧ load_calls (events s') = load_calls (events s).
Proof.
  revert s. induction Es as [|E Es IH]; intros s Hd Hl.
  - exists s. by repeat split.
  - cbn [load_model_each]. unfold bind at 1.
    rewrite (load_model_already _ _ _ d) by done.
    destruct (IH (emit (LogInfo ("Model " +:+ name +:+ " already loaded")) s))
      as (s' & Heach & Hstore & Hcalls); [done..|].
    exists s'. unfold bind at 1. rewrite Heach. split; [done|]. split.
    + eapply same_store_trans; [apply same_store_emit|done].
    + rewrite Hcalls. simpl. rewrite load_calls_app. simpl. by rewrite app_nil_r.
Qed.

Lemma load_model_each_failing E name n :
  ∀ s d e,
    available_models s !! name = Some d → loaded d = false →
    materialize_result E (type d) (path d) = Exc e →
    ∃ s', load_model_each (replicate n E) name s = (Ok (replicate n false), s')
          ∧ same_store s s'
          ∧ length (load_calls (events s')) = length (load_calls (events s)) + n.
Proof.
  induction n as [|n IH]; intros s d e Hd Hl Hm.
  - exists s. repeat split. simpl. lia.
  - cbn [replicate load_model_each]. unfold bind at 1.
    rewrite (load_model_cold _ _ _ d), Hm by done.
    set (s1 := emit _ _).
    destruct (IH s1 d e) as (s' & Heach & Hstore & Hcalls); [done..|].
    exists s'. unfold bind at 1. rewrite Heach. split; [done|]. split.
    + eapply same_store_trans; [|done]. by unfold same_store.
    + rewrite Hcalls. subst s1. simpl. rewrite !load_calls_app, !length_app. simpl.
      rewrite (materialize_loads_once E (type d) (path d))
        by (by eapply materialize_result_raises).
      lia.
Qed.

(** C2, as the code has it. Callers of [load_model] for one registered,
    not yet loaded name that run one after the other: when the load
    succeeds, the backend load is made once, every caller gets [True] and
    the handle stored is the one that load built; when the load fails,
    every caller makes the backend load again and gets [False]. *)
Theorem sequential_callers_load_once (E : Env) (name : string) (n : nat)
    (s : ModelService) (d : descriptor) :
  available_models s !! name = Some d →
  loaded d = false →
  let cfg := run E name (sequential (S n)) (start (S n) s) in
  (∀ h, materialize_result E (type d) (path d) = Ok (Some h) →
        cfg.1 = replicate (S n) (Finished true)
        ∧ length (load_calls (events cfg.2)) = length (load_calls (events s)) + 1
        ∧ loaded_models cfg.2 !! name = Some h)
  ∧ (∀ e, materialize_result E (type d) (path d) = Exc e →
          cfg.1 = replicate (S n) (Finished false)
          ∧ length (load_calls (events cfg.2)) = length (load_calls (events s)) + S n
          ∧ loaded_models cfg.2 = loaded_models s).
Proof.
  intros Hd Hl cfg. subst cfg. unfold sequential, start.
  change 0 with (length (@nil control)).
  change (replicate (S n) Entry) with ([] ++ replicate (S n) Entry).
  split.
  - intros h Hm.
    assert (Hk : known_type (type d)).
    { unfold materialize_result, materialize, known_type in *.
      destruct (String.eqb (type d) "transformers") eqn:H1; [apply String.eqb_eq in H1; auto|].
      destruct (String.eqb (type d) "onnx") eqn:H2; [apply String.eqb_eq in H2; auto|].
      destruct (String.eqb (type d) "stable-diffusion") eqn:H3; [apply String.eqb_eq in H3; auto|].
      done. }
    set (s1 := loaded_state name d (Some h) (extend (materialize_calls E (type d) (path d)) s)).
    destruct (load_model_each_loaded (replicate n E) name s1
                {| path := path d; type := type d; loaded := true |})
      as (s' & Heach & (_ & Hlm & _) & Hcalls); [apply lookup_insert_eq|done|].
    rewrite (run_sequential E name (S n) [] s (true :: replicate n true) s').
    2:{ cbn [replicate load_model_each]. unfold bind at 1.
        rewrite (load_model_cold _ _ _ d), Hm by done. fold s1.
        unfold bind at 1. rewrite Heach. by rewrite length_replicate. }
    cbn [fst snd app]. split; [by rewrite fmap_cons, fmap_replicate|]. split.
    + rewrite Hcalls. subst s1. simpl. rewrite !load_calls_app, !length_app. simpl.
      rewrite (materialize_loads_once E (type d) (path d)) by done. lia.
    + rewrite <- Hlm. subst s1. simpl. apply lookup_insert_eq.
  - intros e Hm.
    destruct (load_model_each_failing E name (S n) s d e)
      as (s' & Heach & (_ & Hlm & _) & Hcalls); [done..|].
    rewrite (run_sequential E name (S n) [] s _ s' Heach).
    cbn [fst snd app]. split; [by rewrite fmap_replicate|]. split; [done|by symmetry].
Qed.

Lemma sequential_callers_load_once_witness :
  let cfg := run Sample.world "resnet50" (sequential 3) (start 3 Sample.service) in
  cfg.1 = [Finished true; Finished true; Finished true]
  ∧ length (load_calls (events cfg.2)) = 1
  ∧ loaded_models cfg.2 !! "resnet50" = Some {[ "session" := 3 ]}.
Proof.
  destruct (sequential_callers_load_once Sample.world "resnet50" 2 Sample.service
              {| path := "./models/vision/resnet50.onnx"; type := "onnx"; loaded := false |}
              eq_refl eq_refl) as [H _].
  exact (H {[ "session" := 3 ]} eq_refl).
Defined.

(** C2 fails as stated: two callers for the cold name [resnet50], each
    suspended where it calls into the library. Both pass the check of the
    flag before either raises it, both build a session, and the second
    store replaces the handle the first caller stored. *)
Lemma interleaved_callers_load_twice :
  let s := Sample.service in
  let cfg := run Sample.world "resnet50" [0; 1; 0; 1; 0; 1] (start 2 s) in
  loaded_models s !! "resnet50" = None
  ∧ loaded <$> available_models s !! "resnet50" = Some false
  ∧ cfg.1 = [Finished true; Finished true]
  ∧ load_calls (events s) = []
  ∧ load_calls (events cfg.2)
    = [ Call (New_InferenceSession "./models/vision/resnet50.onnx");
        Call (New_InferenceSession "./models/vision/resnet50.onnx") ]
  ∧ length (load_calls (events cfg.2)) ≠ length (load_calls (events s)) + 1.
Proof. cbv zeta. repeat split; vm_compute; solve [reflexivity | discriminate]. Qed.

End Callers.

(** ** The generation endpoints *)

Lemma falsy_text_spec r : Endpoints.falsy_text r = true ↔ r = None ∨ r = Some EmptyString.
Proof.
  destruct r as [t|]; simpl; [|split; auto]. rewrite String.eqb_eq. split.
  - intros ->. by right.
  - intros [?|[= ->]]; done.
Qed.

Lemma falsy_bytes_spec r : Endpoints.falsy_bytes r = true ↔ r = None ∨ r = Some [].
Proof.
  destruct r as [[|b bs]|]; simpl; split; auto; try done; intros [?|?]; done.
Qed.

(** C8. Whenever the text endpoint answers with a body, the text in it is
    what the service generated, [tokens_used] is the number of whitespace
    tokens of the prompt plus that of the text, and the usage log
    written carries the same number. *)
Theorem tokens_used_counts_whitespace_tokens (E : Env)
    (request : Endpoints.TextGenerationRequest) (model_name : string)
    (db : Endpoints.database) (api_key : Endpoints.ApiKey) (s : ModelService)
    (body : Endpoints.TextGenerationResponse) (db' : Endpoints.database)
    (s' : ModelService) :
  Endpoints.generate_text E request model_name db api_key s
  = (Endpoints.Respond body, db', s') →
  generate_text E model_name (Endpoints.prompt request) (Endpoints.max_tokens request) s
  = (Ok (Some (Endpoints.text body)), s')
  ∧ Endpoints.response_tokens_used body
    = (Z.of_nat (length (PyStr.split (Endpoints.prompt request)))
       + Z.of_nat (length (PyStr.split (Endpoints.text body))))%Z
  ∧ ∃ l, db' = Endpoints.add_usage_log l db
         ∧ Endpoints.tokens_used l = Endpoints.response_tokens_used body.
Proof.
  unfold Endpoints.generate_text. intros H.
  destruct (Endpoints.query_model db model_name "text") as [m|]; [|done].
  cbn [Endpoints.has_subscription negb] in H.
  destruct (generate_text E model_name _ _ s) as [[[t|]|e] s1]; simpl in H; try done.
  destruct (String.eqb t EmptyString); [done|]. simplify_eq. simpl. eauto.
Qed.

Lemma tokens_used_counts_whitespace_tokens_witness :
  ∃ body db' s',
    Endpoints.generate_text Sample.world Sample.hello "mistral-7b" Sample.db Sample.key
      Sample.service = (Endpoints.Respond body, db', s')
    ∧ Endpoints.text body = "Hello world again"
    ∧ Endpoints.response_tokens_used body = 4%Z
    ∧ Endpoints.response_tokens_used body
      = (Z.of_nat (length (PyStr.split "Hello"))
         + Z.of_nat (length (PyStr.split (Endpoints.text body))))%Z.
Proof.
  eexists _, _, _. split; [vm_compute; reflexivity|].
  split; [reflexivity|]. split; [reflexivity|].
  eapply (tokens_used_counts_whitespace_tokens Sample.world Sample.hello "mistral-7b"
            Sample.db Sample.key Sample.service).
  vm_compute. reflexivity.
Defined.

(** C10. At both endpoints a generation that returns normally with an
    empty result gets the answer a failed generation gets: status 500 with
    the failure detail, no usage log written. The text endpoint never
    answers with an empty text, and the image endpoint answers with no
    body at all. *)
Theorem empty_generation_reported_as_failure (E : Env) (model_name : string)
    (db : Endpoints.database) (api_key : Endpoints.ApiKey) (s : ModelService) :
  (∀ request m r s',
     Endpoints.query_model db model_name "text" = Some m →
     generate_text E model_name (Endpoints.prompt request) (Endpoints.max_tokens request) s
     = (Ok r, s') →
     r = None ∨ r = Some EmptyString →
     Endpoints.generate_text E request model_name db api_key s
     = (Endpoints.HTTPException 500 "Text generation failed", db, s'))
  ∧ (∀ request m r s',
       Endpoints.query_model db model_name "image" = Some m →
       generate_image E model_name (Endpoints.image_prompt request) s = (Ok r, s') →
       r = None ∨ r = Some [] →
       Endpoints.generate_image E request model_name db api_key s
       = (Endpoints.HTTPException 500 "Image generation failed", db, s'))
  ∧ (∀ request body db' s',
       Endpoints.generate_text E request model_name db api_key s
       = (Endpoints.Respond body, db', s') →
       Endpoints.text body ≠ EmptyString)
  ∧ (∀ request body db' s',
       Endpoints.generate_image E request model_name db api_key s
       ≠ (Endpoints.Respond body, db', s')).
Proof.
  split; [|split; [|split]].
  - intros request m r s' Hq Hgen Hr. unfold Endpoints.generate_text.
    rewrite Hq, Hgen. cbn [Endpoints.has_subscription negb].
    apply falsy_text_spec in Hr. by rewrite Hr.
  - intros request m r s' Hq Hgen Hr. unfold Endpoints.generate_image.
    rewrite Hq, Hgen. cbn [Endpoints.has_subscription negb].
    apply falsy_bytes_spec in Hr. by rewrite Hr.
  - intros request body db' s'. unfold Endpoints.generate_text.
    destruct (Endpoints.query_model db model_name "text") as [m|]; [|done].
    cbn [Endpoints.has_subscription negb].
    destruct (generate_text E model_name _ _ s) as [[[t|]|e] s1]; simpl; try done.
    destruct (String.eqb t EmptyString) eqn:Ht; [done|].
    intros [= <- _ _]. simpl. by apply String.eqb_neq.
  - intros request body db' s'. unfold Endpoints.generate_image.
    destruct (Endpoints.query_model db model_name "image") as [m|]; [|done].
    cbn [Endpoints.has_subscription negb].
    destruct (generate_image E model_name _ s) as [[r|e] s1]; [|done].
    destruct (Endpoints.falsy_bytes r); [done|].
    by destruct (makedirs E "static/images").
Qed.

Lemma empty_generation_reported_as_failure_witness :
  (generate_text Sample.mute "mistral-7b" "Hello" 10 Sample.service).1 = Ok (Some EmptyString)
  ∧ (Endpoints.generate_text Sample.mute Sample.hello "mistral-7b" Sample.db Sample.key
       Sample.service).1
    = (Endpoints.HTTPException 500 "Text generation failed", Sample.db)
  ∧ (generate_image Sample.mute "sd15" "a sunset" Sample.service).1 = Ok (Some [])
  ∧ (Endpoints.generate_image Sample.mute Sample.sunset "sd15" Sample.db Sample.key
       Sample.service).1
    = (Endpoints.HTTPException 500 "Image generation failed", Sample.db).
Proof.
  destruct (empty_generation_reported_as_failure Sample.mute "mistral-7b" Sample.db
              Sample.key Sample.service) as (Ht & _).
  destruct (empty_generation_reported_as_failure Sample.mute "sd15" Sample.db
              Sample.key Sample.service) as (_ & Hi & _).
  split; [vm_compute; reflexivity|]. split.
  - erewrite (Ht Sample.hello _ (Some EmptyString)
                (generate_text Sample.mute "mistral-7b" "Hello" 10 Sample.service).2);
      [reflexivity|vm_compute; reflexivity|vm_compute; reflexivity|by right].
  - split; [vm_compute; reflexivity|].
    erewrite (Hi Sample.sunset _ (Some [])
                (generate_image Sample.mute "sd15" "a sunset" Sample.service).2);
      [reflexivity|vm_compute; reflexivity|vm_compute; reflexivity|by right].
Defined.

(** A generation that fails outright gets that same answer. *)
Example failed_generation_answer :
  (Endpoints.generate_text Sample.broken Sample.hello "mistral-7b" Sample.db Sample.key
     Sample.service).1
  = (Endpoints.HTTPException 500 "Text generation failed", Sample.db).
Proof. vm_compute. reflexivity. Qed.

(** A generated image never reaches the caller: past the check of the
    bytes the handler reads [time], which the module does not import. *)
Example image_endpoint_stops_at_time :
  (Endpoints.generate_image Sample.world Sample.sunset "sd15" Sample.db Sample.key
     Sample.service).1
  = (Endpoints.Unhandled (NameError "time"), Sample.db).
Proof. vm_compute. reflexivity. Qed.

(** ** The ONNX adapter *)

Lemma prepare_inputs_missing names inputs acc :
  (∃ n, n ∈ names ∧ inputs !! n = None) →
  ∃ n, n ∈ names ∧ inputs !! n = None ∧ prepare_inputs names inputs acc = inl n.
Proof.
  revert acc. induction names as [|name names IH]; intros acc (n & Hn & Hmiss).
  - by apply elem_of_nil in Hn.
  - cbn [prepare_inputs]. destruct (inputs !! name) as [v|] eqn:Hv.
    + apply elem_of_cons in Hn as [->|Hn]; [congruence|].
      destruct (IH (<[name := v]> acc)) as (n' & Hn' & Hmiss' & ->); [by eauto|].
      exists n'. split; [by apply elem_of_cons; right|done].
    + exists name. split; [by apply elem_of_cons; left|done].
Qed.

Lemma prepare_inputs_present names inputs acc :
  (∀ n, n ∈ names → is_Some (inputs !! n)) →
  ∃ onnx_inputs,
    prepare_inputs names inputs acc = inr onnx_inputs
    ∧ ∀ n, onnx_inputs !! n = if decide (n ∈ names) then inputs !! n else acc !! n.
Proof.
  revert acc. induction names as [|name names IH]; intros acc Hall.
  - exists acc. split; [done|]. intros n. by rewrite decide_False by apply not_elem_of_nil.
  - cbn [prepare_inputs]. destruct (Hall name) as [v Hv]; [by apply elem_of_cons; left|].
    rewrite Hv. destruct (IH (<[name := v]> acc)) as (onnx & -> & Honnx).
    { intros n Hn. apply Hall, elem_of_cons. by right. }
    exists onnx. split; [done|]. intros n. rewrite Honnx.
    destruct (decide (n ∈ names)) as [Hn|Hn].
    + by rewrite decide_True by (apply elem_of_cons; by right).
    + destruct (decide (n = name)) as [->|Hne].
      * rewrite decide_True by (apply elem_of_cons; by left).
        by rewrite lookup_insert_eq.
      * rewrite decide_False by (rewrite elem_of_cons; intros [?|?]; done).
        by rewrite lookup_insert_ne.
Qed.

Lemma build_result_ok names :
  ∀ i outputs acc,
    i + length names ≤ length outputs →
    ∃ result,
      build_result names i outputs acc = Ok result
      ∧ (∀ n, is_Some (result !! n) ↔ n ∈ names ∨ is_Some (acc !! n))
      ∧ (∀ n, n ∉ names → result !! n = acc !! n)
      ∧ (∀ j n, names !! j = Some n → n ∉ drop (S j) names →
                result !! n = outputs !! (i + j)).
Proof.
  induction names as [|name names IH]; intros i outputs acc Hlen.
  - exists acc. split; [done|]. split; [|split].
    + intros n. rewrite elem_of_nil. tauto.
    + done.
    + intros j n Hj. by rewrite lookup_nil in Hj.
  - cbn [build_result]. cbn [length] in Hlen.
    destruct (lookup_lt_is_Some_2 outputs i) as [t Ht]; [lia|]. rewrite Ht.
    destruct (IH (S i) outputs (<[name := t]> acc)) as (result & -> & Hdom & Hout & Hin);
      [lia|].
    exists result. split; [done|]. split; [|split].
    + intros n. rewrite Hdom, elem_of_cons, lookup_insert_is_Some'.
      split; [intros [?|[->|?]]|intros [[->|?]|?]]; auto.
    + intros n Hn. rewrite not_elem_of_cons in Hn. destruct Hn as [Hne Hn].
      rewrite Hout by done. by rewrite lookup_insert_ne.
    + intros [|j] n Hj Hlast.
      * cbn in Hj. simplify_eq. cbn [drop] in Hlast.
        rewrite Hout by done. rewrite lookup_insert_eq, Nat.add_0_r. done.
      * cbn in Hj. cbn [drop] in Hlast.
        rewrite (Hin j n Hj Hlast). f_equal. lia.
Qed.

(** The body of [run_onnx_model] once the model is loaded as an ONNX
    session. *)
Lemma run_onnx_model_loaded E name inputs s d h session :
  available_models s !! name = Some d → type d = "onnx" →
  loaded_models s !! name = Some h → h !! "session" = Some session →
  run_onnx_model E name inputs s
  = match prepare_inputs (get_inputs E session) inputs ∅ with
    | inl n => (Ok None, emit (LogError ("Required input " +:+ n +:+ " not provided")) s)
    | inr onnx_inputs =>
        let s1 := emit (Call (Session_run session onnx_inputs)) s in
        match session_run E session onnx_inputs with
        | Ok outputs =>
            match build_result (get_outputs E session) 0 outputs ∅ with
            | Ok result => (Ok (Some result), s1)
            | Exc e =>
                (Ok None,
                 emit (LogError ("ONNX inference failed with model " +:+ name +:+ ": "
                                 +:+ exn_str e)) s1)
            end
        | Exc e =>
            (Ok None,
             emit (LogError ("ONNX inference failed with model " +:+ name +:+ ": "
                             +:+ exn_str e)) s1)
        end
    end.
Proof.
  intros Hd Hty Hh Hs. unfold run_onnx_model. unfold bind at 1.
  rewrite ensure_loaded_spec, Hh. cbn [negb]. unfold_m. simpl.
  rewrite Hd. simpl. rewrite Hty, String.eqb_refl. simpl. rewrite Hh. simpl.
  rewrite Hs. simpl.
  destruct (prepare_inputs (get_inputs E session) inputs ∅) as [n|onnx]; [done|].
  simpl. destruct (session_run E session onnx) as [outputs|e]; [|done].
  by destruct (build_result (get_outputs E session) 0 outputs ∅).
Qed.

(** C9. For a model loaded as an ONNX session: if the supplied map lacks
    a name the session requires, [run_onnx_model] returns [None], logs the
    missing name and makes no call to [session.run]; if every required
    name is supplied, [session.run] is called on exactly the required
    entries of the map, and when it returns one tensor per output name the
    result maps each output name to the tensor at its position. *)
Theorem run_onnx_model_checks_inputs (E : Env) (name : string)
    (inputs : gmap string tensor) (s : ModelService) (d : descriptor)
    (h : gmap string obj) (session : obj) :
  available_models s !! name = Some d → type d = "onnx" →
  loaded_models s !! name = Some h → h !! "session" = Some session →
  let required := get_inputs E session in
  let output_names := get_outputs E session in
  ((∃ n, n ∈ required ∧ inputs !! n = None) →
   ∃ n, n ∈ required ∧ inputs !! n = None
        ∧ run_onnx_model E name inputs s
          = (Ok None, emit (LogError ("Required input " +:+ n +:+ " not provided")) s))
  ∧ ((∀ n, n ∈ required → is_Some (inputs !! n)) →
     ∃ onnx_inputs,
       (∀ n, onnx_inputs !! n = if decide (n ∈ required) then inputs !! n else None)
       ∧ (∃ evs, events (run_onnx_model E name inputs s).2
                 = events s ++ Call (Session_run session onnx_inputs) :: evs)
       ∧ ∀ outputs,
           session_run E session onnx_inputs = Ok outputs →
           length output_names ≤ length outputs →
           ∃ result,
             run_onnx_model E name inputs s
             = (Ok (Some result), emit (Call (Session_run session onnx_inputs)) s)
             ∧ (∀ n, is_Some (result !! n) ↔ n ∈ output_names)
             ∧ (∀ i n, output_names !! i = Some n → n ∉ drop (S i) output_names →
                       result !! n = outputs !! i)).
Proof.
  intros Hd Hty Hh Hs required output_names.
  rewrite (run_onnx_model_loaded E name inputs s d h session) by done.
  fold required. fold output_names. split.
  - intros Hmiss.
    destruct (prepare_inputs_missing required inputs ∅ Hmiss) as (n & Hn & Hnone & ->).
    eauto.
  - intros Hall.
    destruct (prepare_inputs_present required inputs ∅ Hall) as (onnx & -> & Honnx).
    exists onnx. split; [|split].
    + intros n. rewrite Honnx. by rewrite lookup_empty.
    + cbv zeta. destruct (session_run E session onnx) as [outputs|e].
      * destruct (build_result output_names 0 outputs ∅); simpl;
          rewrite <- ?app_assoc; eexists; reflexivity.
      * simpl. rewrite <- app_assoc. eexists. reflexivity.
    + intros outputs -> Hlen. cbv zeta.
      destruct (build_result_ok output_names 0 outputs ∅) as (result & -> & Hdom & _ & Hin);
        [simpl; lia|].
      exists result. split; [done|]. split.
      * intros n. rewrite Hdom, lookup_empty. split; [intros [?|[? ?]]; done|auto].
      * intros i n Hi Hlast. by rewrite (Hin i n Hi Hlast).
Qed.

Lemma run_onnx_model_checks_inputs_witness :
  let s := (load_model Sample.world "resnet50" Sample.service).2 in
  run_onnx_model Sample.world "resnet50" {[ "mask" := [0%Z] ]} s
  = (Ok None, emit (LogError "Required input pixels not provided") s)
  ∧ ∃ result,
      run_onnx_model Sample.world "resnet50"
        {[ "pixels" := [9%Z]; "mask" := [0%Z] ]} s
      = (Ok (Some result),
         emit (Call (Session_run 3 {[ "pixels" := [9%Z] ]})) s)
      ∧ result !! "logits" = Some [1%Z; 2%Z]
      ∧ result !! "probs" = Some [3%Z].
Proof.
  cbv zeta.
  set (s := (load_model Sample.world "resnet50" Sample.service).2).
  pose proof (run_onnx_model_checks_inputs Sample.world "resnet50") as H.
  split.
  - destruct (H {[ "mask" := [0%Z] ]} s
                {| path := "./models/vision/resnet50.onnx"; type := "onnx"; loaded := true |}
                {[ "session" := 3 ]} 3) as [Hmiss _];
      [vm_compute; reflexivity..|].
    destruct Hmiss as (n & Hn & _ & Hrun).
    + exists "pixels". split; [apply list_elem_of_singleton; reflexivity|reflexivity].
    + apply list_elem_of_singleton in Hn. by rewrite Hn in Hrun.
  - destruct (H {[ "pixels" := [9%Z]; "mask" := [0%Z] ]} s
                {| path := "./models/vision/resnet50.onnx"; type := "onnx"; loaded := true |}
                {[ "session" := 3 ]} 3) as [_ Hall];
      [vm_compute; reflexivity..|].
    destruct Hall as (onnx & Honnx & _ & Hrun).
    + intros n Hn%list_elem_of_singleton. subst n. by eexists.
    + assert (onnx = {[ "pixels" := [9%Z] ]}) as ->.
      { apply map_eq. intros n. rewrite Honnx. simpl.
        destruct (decide (n = "pixels")) as [->|Hne].
        - by rewrite decide_True by (apply list_elem_of_singleton; reflexivity).
        - rewrite decide_False by (by rewrite list_elem_of_singleton).
          by rewrite lookup_singleton_ne. }
      destruct (Hrun [[1%Z; 2%Z]; [3%Z]] eq_refl) as (result & Hres & _ & Hat);
        [simpl; lia|].
      exists result. split; [exact Hres|]. split.
      * apply (Hat 0 "logits"); [reflexivity|].
        simpl. by rewrite list_elem_of_singleton.
      * apply (Hat 1 "probs"); [reflexivity|]. simpl. apply not_elem_of_nil.
Defined.

(** * Further properties of the service *)

(** ** What [load_model] answers *)

(** X1. [load_model] never raises, and it answers [True] exactly when the
    flag of the name is up in the state it leaves. *)
Theorem load_model_answers_the_flag (E : Env) (name : string) (s : ModelService) :
  ∃ b s',
    load_model E name s = (Ok b, s')
    ∧ (b = true ↔ loaded <$> available_models s' !! name = Some true).
Proof.
  destruct (available_models s !! name) as [d|] eqn:Hd.
  - destruct (loaded d) eqn:Hl.
    + rewrite (load_model_already _ _ _ d) by done. eexists _, _. split; [done|].
      simpl. rewrite Hd. simpl. by rewrite Hl.
    + rewrite (load_model_cold _ _ _ d) by done.
      destruct (materialize_result E (type d) (path d)) as [h|e].
      * eexists _, _. split; [done|]. simpl. by rewrite lookup_insert_eq.
      * eexists _, _. split; [done|]. simpl. rewrite Hd. simpl. rewrite Hl.
        split; intros; simplify_eq.
  - rewrite load_model_not_found by done. eexists _, _. split; [done|].
    simpl. rewrite Hd. simpl. split; intros; simplify_eq.
Qed.

(** X2. Once [load_model] has answered [True], a further [load_model] for
    the name, in any world, answers [True] again, calls no library and
    leaves both dicts as they are: it only logs that the model is loaded. *)
Theorem load_model_again_is_a_no_op (E E' : Env) (name : string) (s s1 : ModelService) :
  load_model E name s = (Ok true, s1) →
  load_model E' name s1
  = (Ok true, emit (LogInfo ("Model " +:+ name +:+ " already loaded")) s1).
Proof.
  intros Hload.
  assert (Hup : ∃ d, available_models s1 !! name = Some d ∧ loaded d = true).
  { destruct (available_models s !! name) as [d|] eqn:Hd.
    - destruct (loaded d) eqn:Hl.
      + rewrite (load_model_already _ _ _ d) in Hload by done. simplify_eq.
        by exists d.
      + rewrite (load_model_cold _ _ _ d) in Hload by done.
        destruct (materialize_result E (type d) (path d)) as [h|e]; simplify_eq.
        eexists. split; [apply lookup_insert_eq|done].
    - rewrite load_model_not_found in Hload by done. simplify_eq. }
  destruct Hup as (d & Hd & Hl). by apply (load_model_already E' name s1 d).
Qed.

Lemma load_model_again_is_a_no_op_witness :
  let s1 := (load_model Sample.world "resnet50" Sample.service).2 in
  load_model Sample.broken "resnet50" s1
  = (Ok true, emit (LogInfo "Model resnet50 already loaded") s1).
Proof.
  cbv zeta.
  apply (load_model_again_is_a_no_op Sample.world Sample.broken "resnet50" Sample.service).
  vm_compute. reflexivity.
Defined.

(** ** What an operation leaves alone *)

Lemma load_model_frame E name s name' :
  name' ≠ name →
  available_models (load_model E name s).2 !! name' = available_models s !! name'
  ∧ loaded_models (load_model E name s).2 !! name' = loaded_models s !! name'.
Proof.
  intros Hne. destruct (available_models s !! name) as [d|] eqn:Hd.
  - destruct (loaded d) eqn:Hl.
    + by rewrite (load_model_already _ _ _ d).
    + rewrite (load_model_cold _ _ _ d) by done.
      destruct (materialize_result E (type d) (path d)) as [[h|]|e]; simpl;
        rewrite ?lookup_insert_ne by done; done.
  - by rewrite load_model_not_found.
Qed.

Lemma unload_model_frame E name s name' :
  name' ≠ name →
  available_models (unload_model E name s).2 !! name' = available_models s !! name'
  ∧ loaded_models (unload_model E name s).2 !! name' = loaded_models s !! name'.
Proof.
  intros Hne. destruct (loaded_models s !! name) as [h|] eqn:Hh.
  - destruct (available_models s !! name) as [d|] eqn:Hd.
    + rewrite (unload_model_loaded _ _ _ h d) by done.
      destruct (release_memory E); simpl;
        rewrite lookup_insert_ne, lookup_delete_ne by done; done.
    + rewrite (unload_model_unregistered _ _ _ h) by done. simpl.
      by rewrite lookup_delete_ne.
  - by rewrite unload_model_not_loaded.
Qed.

Lemma ensure_loaded_frame E name s name' :
  name' ≠ name →
  available_models (ensure_loaded E name s).2 !! name' = available_models s !! name'
  ∧ loaded_models (ensure_loaded E name s).2 !! name' = loaded_models s !! name'.
Proof.
  intros Hne. rewrite ensure_loaded_spec. destruct (loaded_models s !! name); [done|].
  by apply load_model_frame.
Qed.

(** X3. An operation on one model leaves every other model as it was: its
    descriptor and its handle, present or absent, are the same before and
    after, in any state and whatever the libraries answer. *)
Theorem operations_leave_other_models_alone (E : Env) (o : operation)
    (s : ModelService) (name name' : string) :
  operation_target o = Some name →
  name' ≠ name →
  available_models (perform E o s) !! name' = available_models s !! name'
  ∧ loaded_models (perform E o s) !! name' = loaded_models s !! name'.
Proof.
  intros Ho Hne. destruct o as [|n|n|n p k|n p|n i]; simpl in *; simplify_eq.
  - by apply load_model_frame.
  - by apply unload_model_frame.
  - destruct (generate_text_store E name p k s) as [evs ->]. simpl.
    by apply ensure_loaded_frame.
  - destruct (generate_image_store E name p s) as [evs ->]. simpl.
    by apply ensure_loaded_frame.
  - destruct (run_onnx_model_store E name i s) as [evs ->]. simpl.
    by apply ensure_loaded_frame.
Qed.

Lemma operations_leave_other_models_alone_witness :
  let s' := perform Sample.broken (GenerateImage "sd15" "a sunset")
              (perform Sample.world (Load "resnet50") Sample.service) in
  available_models s' !! "resnet50"
  = available_models (perform Sample.world (Load "resnet50") Sample.service) !! "resnet50"
  ∧ loaded_models s' !! "resnet50"
    = loaded_models (perform Sample.world (Load "resnet50") Sample.service) !! "resnet50".
Proof.
  cbv zeta.
  apply (operations_leave_other_models_alone Sample.broken (GenerateImage "sd15" "a sunset")
           _ "sd15" "resnet50"); [reflexivity|discriminate].
Defined.

Lemma unload_model_keeps_descriptor E name s d :
  available_models s !! name = Some d →
  ∃ d1, available_models (unload_model E name s).2 !! name = Some d1
        ∧ type d1 = type d ∧ path d1 = path d.
Proof.
  intros Hd. destruct (loaded_models s !! name) as [h|] eqn:Hh.
  - rewrite (unload_model_loaded _ _ _ h d) by done.
    destruct (release_memory E); simpl; rewrite lookup_insert_eq; eauto.
  - rewrite unload_model_not_loaded by done. eauto.
Qed.

Lemma ensure_loaded_keeps_descriptor E name s d :
  available_models s !! name = Some d →
  ∃ d1, available_models (ensure_loaded E name s).2 !! name = Some d1
        ∧ type d1 = type d ∧ path d1 = path d.
Proof.
  intros Hd. rewrite ensure_loaded_spec. destruct (loaded_models s !! name); [eauto|].
  destruct (load_model_keeps_descriptor E name s d Hd) as (b & s1 & d1 & -> & ?).
  eauto.
Qed.

(** X4. No operation ever removes a name from the registry, and apart from
    [scan_models] none changes the path or the type a name is registered
    with. *)
Theorem registered_names_stay_registered (E : Env) (o : operation)
    (s : ModelService) (name : string) (d : descriptor) :
  available_models s !! name = Some d →
  ∃ d', available_models (perform E o s) !! name = Some d'
        ∧ (is_scan o = false → path d' = path d ∧ type d' = type d).
Proof.
  intros Hd.
  assert (Hkeep : ∀ s', available_models s' !! name = available_models s !! name →
            ∃ d', available_models s' !! name = Some d'
                  ∧ (is_scan o = false → path d' = path d ∧ type d' = type d)).
  { intros s' Hs'. exists d. split; [by rewrite Hs'|done]. }
  destruct o as [|n|n|n p k|n p|n i]; simpl.
  - assert (is_Some (available_models (scan_models E s).2 !! name)) as [d' Hd'].
    { destruct (path_exists E (model_dir s)) eqn:Hex.
      - destruct (scan_models_present E s Hex) as [evs ->]. simpl.
        apply register_all_is_Some. left. by rewrite Hd.
      - rewrite scan_models_absent by done.
        destruct (makedirs E (model_dir s)); simpl; by rewrite Hd. }
    exists d'. split; [done|]. discriminate.
  - destruct (decide (n = name)) as [->|Hne];
      [|apply Hkeep; by apply load_model_frame].
    destruct (load_model_keeps_descriptor E name s d Hd) as (b & s1 & d1 & -> & ? & ? & ?).
    eauto.
  - destruct (decide (n = name)) as [->|Hne];
      [|apply Hkeep; by apply unload_model_frame].
    destruct (unload_model_keeps_descriptor E name s d Hd) as (d1 & ? & ? & ?). eauto.
  - destruct (generate_text_store E n p k s) as [evs ->]. simpl.
    destruct (decide (n = name)) as [->|Hne];
      [|apply (Hkeep (extend evs (ensure_loaded E n s).2)); by apply ensure_loaded_frame].
    destruct (ensure_loaded_keeps_descriptor E name s d Hd) as (d1 & ? & ? & ?). eauto.
  - destruct (generate_image_store E n p s) as [evs ->]. simpl.
    destruct (decide (n = name)) as [->|Hne];
      [|apply (Hkeep (extend evs (ensure_loaded E n s).2)); by apply ensure_loaded_frame].
    destruct (ensure_loaded_keeps_descriptor E name s d Hd) as (d1 & ? & ? & ?). eauto.
  - destruct (run_onnx_model_store E n i s) as [evs ->]. simpl.
    destruct (decide (n = name)) as [->|Hne];
      [|apply (Hkeep (extend evs (ensure_loaded E n s).2)); by apply ensure_loaded_frame].
    destruct (ensure_loaded_keeps_descriptor E name s d Hd) as (d1 & ? & ? & ?). eauto.
Qed.

Lemma registered_names_stay_registered_witness :
  ∃ d', available_models
          (perform (Sample.with_tree []) Scan
             (perform Sample.world (Unload "sd15") Sample.service)) !! "sd15" = Some d'.
Proof.
  destruct (registered_names_stay_registered (Sample.with_tree []) Scan
              (perform Sample.world (Unload "sd15") Sample.service) "sd15"
              {| path := "./models/sd15"; type := "stable-diffusion"; loaded := false |})
    as (d' & Hd' & _); [vm_compute; reflexivity|].
  by exists d'.
Defined.

(** ** Exceptions that cannot happen *)

Lemma unload_model_returns E name s : returned (unload_model E name s).
Proof.
  unfold returned. destruct (loaded_models s !! name) as [h|] eqn:Hh.
  - destruct (available_models s !! name) as [d|] eqn:Hd.
    + rewrite (unload_model_loaded _ _ _ h d) by done.
      destruct (release_memory E); simpl; eauto.
    + rewrite (unload_model_unregistered _ _ _ h) by done. simpl. eauto.
  - rewrite unload_model_not_loaded by done. simpl. eauto.
Qed.

Lemma ensure_loaded_true_registered E name s s1 :
  well_formed s → ensure_loaded E name s = (Ok true, s1) →
  is_Some (available_models s1 !! name).
Proof.
  intros Hwf. rewrite ensure_loaded_spec.
  destruct (loaded_models s !! name) as [h|] eqn:Hh.
  - intros [= <-]. apply (wf_registered _ Hwf). by rewrite Hh.
  - intros Hload. destruct (load_model_true _ _ _ _ Hwf Hload) as (_ & d & Hd & _).
    by rewrite Hd.
Qed.

Lemma generate_text_returns E name prompt k s :
  well_formed s → returned (generate_text E name prompt k s).
Proof.
  intros Hwf. unfold returned, generate_text. unfold bind at 1.
  destruct (ensure_loaded_returns E name s) as [b Hb].
  destruct (ensure_loaded E name s) as [r s1] eqn:Hens. simpl in Hb. subst r.
  destruct b; simpl; [|by eauto].
  destruct (ensure_loaded_true_registered E name s s1 Hwf Hens) as [d Hd].
  unfold_m. simpl. rewrite Hd. simpl.
  repeat (case_match; simplify_eq; simpl in * ); eauto.
Qed.

Lemma generate_image_returns E name prompt s :
  well_formed s → returned (generate_image E name prompt s).
Proof.
  intros Hwf. unfold returned, generate_image. unfold bind at 1.
  destruct (ensure_loaded_returns E name s) as [b Hb].
  destruct (ensure_loaded E name s) as [r s1] eqn:Hens. simpl in Hb. subst r.
  destruct b; simpl; [|by eauto].
  destruct (ensure_loaded_true_registered E name s s1 Hwf Hens) as [d Hd].
  unfold_m. simpl. rewrite Hd. simpl.
  repeat (case_match; simplify_eq; simpl in * ); eauto.
Qed.

Lemma run_onnx_model_returns E name inputs s :
  well_formed s → returned (run_onnx_model E name inputs s).
Proof.
  intros Hwf. unfold returned, run_onnx_model. unfold bind at 1.
  destruct (ensure_loaded_returns E name s) as [b Hb].
  destruct (ensure_loaded E name s) as [r s1] eqn:Hens. simpl in Hb. subst r.
  destruct b; simpl; [|by eauto].
  destruct (ensure_loaded_true_registered E name s s1 Hwf Hens) as [d Hd].
  unfold_m. simpl. rewrite Hd. simpl.
  repeat (case_match; simplify_eq; simpl in * ); eauto.
Qed.

(** X5. In every state of the service, [load_model], [unload_model] and
    the three dispatch methods return: whatever a library raises is caught,
    and the lookup of the descriptor after the load step finds it.
    [scan_models] returns unless the root directory is missing and
    [os.makedirs] raises. *)
Theorem service_methods_do_not_raise (rescan : bool) (E : Env) (s : ModelService)
    (name prompt : string) (k : Z) (inputs : gmap string tensor) :
  reachable rescan s →
  returned (load_model E name s)
  ∧ returned (unload_model E name s)
  ∧ returned (generate_text E name prompt k s)
  ∧ returned (generate_image E name prompt s)
  ∧ returned (run_onnx_model E name inputs s)
  ∧ (returned (scan_models E s)
     ↔ path_exists E (model_dir s) = true ∨ ∃ u, makedirs E (model_dir s) = Ok u).
Proof.
  intros Hwf%reachable_well_formed. repeat split.
  - destruct (load_model_returns E name s) as [b Hb]. by exists b.
  - apply unload_model_returns.
  - by apply generate_text_returns.
  - by apply generate_image_returns.
  - by apply run_onnx_model_returns.
  - destruct (path_exists E (model_dir s)) eqn:Hex; [by left|]. right.
    rewrite scan_models_absent in H by done. destruct H as [v Hv].
    destruct (makedirs E (model_dir s)) as [u|e]; [by exists u|done].
  - intros [Hex|[u Hu]].
    + destruct (scan_models_present E s Hex) as [evs ->]. by exists tt.
    + destruct (path_exists E (model_dir s)) eqn:Hex.
      * destruct (scan_models_present E s Hex) as [evs ->]. by exists tt.
      * rewrite scan_models_absent, Hu by done. by exists tt.
Qed.

Lemma service_methods_do_not_raise_witness :
  returned (generate_text Sample.broken "mistral-7b" "Hello" 10 Sample.service)
  ∧ returned (run_onnx_model Sample.broken "no-such-model" ∅ Sample.service).
Proof.
  assert (Hs : reachable false Sample.service).
  { apply (reachable_init false Sample.world "./models"). reflexivity. }
  split.
  - exact (proj1 (proj2 (proj2 (service_methods_do_not_raise false Sample.broken
             Sample.service "mistral-7b" "Hello" 10 ∅ Hs)))).
  - exact (proj1 (proj2 (proj2 (proj2 (proj2 (service_methods_do_not_raise false
             Sample.broken Sample.service "no-such-model" "Hello" 10 ∅ Hs)))))).
Defined.

(** Outside the states of the service the lookup can fail: a handle
    without a descriptor makes [generate_text] raise [KeyError]. *)
Example generate_text_raises_on_orphan_handle :
  (generate_text Sample.world "ghost" "Hello" 10
     (set_loaded_models (insert "ghost" {[ "model" := 1; "tokenizer" := 2 ]})
        (new_service "./models"))).1
  = Exc (KeyError "ghost").
Proof. vm_compute. reflexivity. Qed.

(** X6. A dispatch for a name the registry does not hold returns [None]:
    the only trace is the error line of [load_model], no library is
    called and both dicts are as before. *)
Theorem dispatch_of_unknown_name (rescan : bool) (E : Env) (s : ModelService)
    (name prompt : string) (k : Z) (inputs : gmap string tensor) :
  reachable rescan s →
  available_models s !! name = None →
  let s' := emit (LogError ("Model " +:+ name +:+ " not found")) s in
  generate_text E name prompt k s = (Ok None, s')
  ∧ generate_image E name prompt s = (Ok None, s')
  ∧ run_onnx_model E name inputs s = (Ok None, s').
Proof.
  intros Hwf%reachable_well_formed Hd s'.
  assert (Hens : ensure_loaded E name s = (Ok false, s')).
  { rewrite ensure_loaded_spec. destruct (loaded_models s !! name) eqn:Hh.
    - destruct (wf_registered _ Hwf name) as [d Hd']; [by rewrite Hh|congruence].
    - by apply load_model_not_found. }
  repeat split.
  - by apply generate_text_not_ready.
  - unfold generate_image. unfold bind at 1. by rewrite Hens.
  - unfold run_onnx_model. unfold bind at 1. by rewrite Hens.
Qed.

Lemma dispatch_of_unknown_name_witness :
  generate_text Sample.world "gpt-5" "Hello" 10 Sample.service
  = (Ok None, emit (LogError "Model gpt-5 not found") Sample.service).
Proof.
  refine (proj1 (dispatch_of_unknown_name false Sample.world Sample.service "gpt-5"
                   "Hello" 10 ∅ _ eq_refl)).
  apply (reachable_init false Sample.world "./models"). reflexivity.
Defined.

(** ** Generation on a loaded model *)

Lemma generate_text_loaded E name prompt k s d h m t :
  available_models s !! name = Some d → type d = "transformers" →
  loaded_models s !! name = Some h →
  h !! "model" = Some m → h !! "tokenizer" = Some t →
  generate_text E name prompt k s
  = match text_generate E m t prompt k with
    | Ok response => (Ok (Some response), emit (Call (Text_generate m t prompt k)) s)
    | Exc e =>
        (Ok None,
         extend [ Call (Text_generate m t prompt k);
                  LogError ("Text generation failed with model " +:+ name +:+ ": "
                            +:+ exn_str e) ] s)
    end.
Proof.
  intros Hd Hty Hh Hm Ht. unfold generate_text. unfold bind at 1.
  rewrite ensure_loaded_spec, Hh. cbn [negb]. unfold_m. simpl.
  rewrite Hd. simpl. rewrite Hty, String.eqb_refl. simpl. rewrite Hh. simpl.
  rewrite Hm. simpl. rewrite Ht. simpl.
  destruct (text_generate E m t prompt k); [done|].
  unfold extend, emit. simpl. by rewrite <- app_assoc.
Qed.

Lemma generate_image_loaded E name prompt s d h p :
  available_models s !! name = Some d → type d = "stable-diffusion" →
  loaded_models s !! name = Some h → h !! "pipeline" = Some p →
  generate_image E name prompt s
  = match pipeline_call E p prompt with
    | Ok image_bytes => (Ok (Some image_bytes), emit (Call (Pipeline_call p prompt)) s)
    | Exc e =>
        (Ok None,
         extend [ Call (Pipeline_call p prompt);
                  LogError ("Image generation failed with model " +:+ name +:+ ": "
                            +:+ exn_str e) ] s)
    end.
Proof.
  intros Hd Hty Hh Hp. unfold generate_image. unfold bind at 1.
  rewrite ensure_loaded_spec, Hh. cbn [negb]. unfold_m. simpl.
  rewrite Hd. simpl. rewrite Hty, String.eqb_refl. simpl. rewrite Hh. simpl.
  rewrite Hp. simpl.
  destruct (pipeline_call E p prompt); [done|].
  unfold extend, emit. simpl. by rewrite <- app_assoc.
Qed.

Lemma generate_text_after_load E name prompt k s s1 :
  ensure_loaded E name s = (Ok true, s1) →
  is_Some (loaded_models s1 !! name) →
  generate_text E name prompt k s = generate_text E name prompt k s1.
Proof.
  intros Hens [h Hh]. unfold generate_text.
  unfold bind at 1. rewrite Hens. symmetry.
  unfold bind at 1. by rewrite ensure_loaded_spec, Hh.
Qed.

Lemma materialize_transformers E p m t :
  causal_lm_from_pretrained E p = Ok m →
  tokenizer_from_pretrained E p = Ok t →
  materialize_result E "transformers" p = Ok (Some {[ "model" := m; "tokenizer" := t ]})
  ∧ materialize_calls E "transformers" p
    = [Call (CausalLM_from_pretrained p); Call (Tokenizer_from_pretrained p)].
Proof.
  intros Hm Ht. unfold materialize_result, materialize_calls, materialize.
  rewrite String.eqb_refl. unfold_m. simpl. rewrite Hm. simpl. by rewrite Ht.
Qed.

(** X7. The first [generate_text] for a registered text model loads, then
    generates: the model and the tokenizer are read from the descriptor's
    path, the handle is stored and the flag raised, the prompt and
    [max_tokens] go to the model as given, and its text is the result. A
    later [generate_text] uses the stored handle and reads nothing again. *)
Theorem first_generate_text_loads_then_generates (E E' : Env) (name prompt prompt' : string)
    (k k' : Z) (s : ModelService) (d : descriptor) (m t : obj) (response : string) :
  available_models s !! name = Some d → type d = "transformers" →
  loaded d = false → loaded_models s !! name = None →
  causal_lm_from_pretrained E (path d) = Ok m →
  tokenizer_from_pretrained E (path d) = Ok t →
  text_generate E m t prompt k = Ok response →
  ∃ s',
    generate_text E name prompt k s = (Ok (Some response), s')
    ∧ events s'
      = events s
        ++ [ Call (CausalLM_from_pretrained (path d));
             Call (Tokenizer_from_pretrained (path d));
             LogInfo ("Successfully loaded model " +:+ name);
             Call (Text_generate m t prompt k) ]
    ∧ loaded_models s' !! name = Some {[ "model" := m; "tokenizer" := t ]}
    ∧ loaded <$> available_models s' !! name = Some true
    ∧ generate_text E' name prompt' k' s'
      = match text_generate E' m t prompt' k' with
        | Ok response' =>
            (Ok (Some response'), emit (Call (Text_generate m t prompt' k')) s')
        | Exc e =>
            (Ok None,
             extend [ Call (Text_generate m t prompt' k');
                      LogError ("Text generation failed with model " +:+ name +:+ ": "
                                +:+ exn_str e) ] s')
        end.
Proof.
  intros Hd Hty Hl Hh Hm Ht Hgen.
  destruct (materialize_transformers E (path d) m t Hm Ht) as [Hres Hcalls].
  set (h := {[ "model" := m; "tokenizer" := t ]} : gmap string obj) in *.
  set (s1 := loaded_state name d (Some h)
               (extend (materialize_calls E (type d) (path d)) s)).
  assert (Hens : ensure_loaded E name s = (Ok true, s1)).
  { rewrite ensure_loaded_spec, Hh, (load_model_cold _ _ _ d) by done.
    subst s1. by rewrite Hty, Hres. }
  assert (Hh1 : loaded_models s1 !! name = Some h) by apply lookup_insert_eq.
  assert (Hd1 : available_models s1 !! name
                = Some {| path := path d; type := type d; loaded := true |})
    by apply lookup_insert_eq.
  assert (Hloaded : ∀ E0 p0 k0,
            generate_text E0 name p0 k0 s1
            = match text_generate E0 m t p0 k0 with
              | Ok r => (Ok (Some r), emit (Call (Text_generate m t p0 k0)) s1)
              | Exc e =>
                  (Ok None,
                   extend [ Call (Text_generate m t p0 k0);
                            LogError ("Text generation failed with model " +:+ name
                                      +:+ ": " +:+ exn_str e) ] s1)
              end).
  { intros E0 p0 k0. by eapply (generate_text_loaded E0 name p0 k0 s1 _ h m t). }
  exists (emit (Call (Text_generate m t prompt k)) s1).
  split; [|split; [|split; [|split]]].
  - rewrite (generate_text_after_load E name prompt k s s1) by (by rewrite ?Hh1).
    by rewrite Hloaded, Hgen.
  - subst s1. simpl. rewrite Hty, Hcalls. by rewrite <- !app_assoc.
  - exact Hh1.
  - simpl. by rewrite lookup_insert_eq.
  - by eapply (generate_text_loaded E' name prompt' k' _ _ h m t).
Qed.

Lemma first_generate_text_loads_then_generates_witness :
  ∃ s',
    generate_text Sample.world "mistral-7b" "Hello" 10 Sample.service
    = (Ok (Some "Hello world again"), s')
    ∧ loaded_models s' !! "mistral-7b" = Some {[ "model" := 1; "tokenizer" := 2 ]}.
Proof.
  destruct (first_generate_text_loads_then_generates Sample.world Sample.world
              "mistral-7b" "Hello" "Hi" 10 5 Sample.service
              {| path := "./models/mistral-7b"; type := "transformers"; loaded := false |}
              1 2 "Hello world again")
    as (s' & H1 & _ & H3 & _); try reflexivity.
  exists s'. by split.
Defined.

(** X8. A generation that raises on a loaded model is caught: the method
    returns [None], logs the model name and the cause, and leaves both
    dicts as they were, so the model stays loaded. This holds for
    [generate_text] and for [generate_image]. *)
Theorem failed_generation_keeps_the_model (E : Env) (name prompt : string) (k : Z)
    (s : ModelService) (d : descriptor) (h : gmap string obj) (e : exn) :
  available_models s !! name = Some d →
  loaded_models s !! name = Some h →
  (∀ m t, type d = "transformers" → h !! "model" = Some m → h !! "tokenizer" = Some t →
          text_generate E m t prompt k = Exc e →
          generate_text E name prompt k s
          = (Ok None,
             extend [ Call (Text_generate m t prompt k);
                      LogError ("Text generation failed with model " +:+ name +:+ ": "
                                +:+ exn_str e) ] s))
  ∧ (∀ p, type d = "stable-diffusion" → h !! "pipeline" = Some p →
          pipeline_call E p prompt = Exc e →
          generate_image E name prompt s
          = (Ok None,
             extend [ Call (Pipeline_call p prompt);
                      LogError ("Image generation failed with model " +:+ name +:+ ": "
                                +:+ exn_str e) ] s)).
Proof.
  intros Hd Hh. split.
  - intros m t Hty Hm Ht Hgen.
    by rewrite (generate_text_loaded E name prompt k s d h m t), Hgen.
  - intros p Hty Hp Hgen.
    by rewrite (generate_image_loaded E name prompt s d h p), Hgen.
Qed.

Lemma failed_generation_keeps_the_model_witness :
  let s := (load_model Sample.world "mistral-7b" Sample.service).2 in
  generate_text Faulty.crashing "mistral-7b" "Hello" 10 s
  = (Ok None,
     extend [ Call (Text_generate 1 2 "Hello" 10);
              LogError "Text generation failed with model mistral-7b: out of memory" ] s).
Proof.
  cbv zeta.
  refine (proj1 (failed_generation_keeps_the_model Faulty.crashing "mistral-7b" "Hello" 10
                   _ {| path := "./models/mistral-7b"; type := "transformers";
                        loaded := true |}
                   {[ "model" := 1; "tokenizer" := 2 ]} (LibraryError "out of memory")
                   _ _) 1 2 _ _ _ _); vm_compute; reflexivity.
Defined.

(** ** More on the ONNX adapter *)

Lemma prepare_inputs_ext names inputs inputs' acc :
  (∀ n, n ∈ names → inputs !! n = inputs' !! n) →
  prepare_inputs names inputs acc = prepare_inputs names inputs' acc.
Proof.
  revert acc. induction names as [|name names IH]; intros acc Hagree; [done|].
  cbn [prepare_inputs]. rewrite <- (Hagree name) by (apply elem_of_cons; by left).
  destruct (inputs !! name); [|done].
  apply IH. intros n Hn. apply Hagree, elem_of_cons. by right.
Qed.

(** X9. [run_onnx_model] reads of the supplied map only the entries under
    the names the session requires: two maps that agree on those names
    give the same result, the same call to [session.run] and the same
    state, whatever else they hold. *)
Theorem run_onnx_model_reads_required_inputs_only (E : Env) (name : string)
    (inputs inputs' : gmap string tensor) (s : ModelService) (d : descriptor)
    (h : gmap string obj) (session : obj) :
  available_models s !! name = Some d → type d = "onnx" →
  loaded_models s !! name = Some h → h !! "session" = Some session →
  (∀ n, n ∈ get_inputs E session → inputs !! n = inputs' !! n) →
  run_onnx_model E name inputs s = run_onnx_model E name inputs' s.
Proof.
  intros Hd Hty Hh Hs Hagree.
  rewrite !(run_onnx_model_loaded E name _ s d h session) by done.
  by rewrite (prepare_inputs_ext _ inputs inputs').
Qed.

Lemma run_onnx_model_reads_required_inputs_only_witness :
  let s := (load_model Sample.world "resnet50" Sample.service).2 in
  run_onnx_model Sample.world "resnet50" {[ "pixels" := [9%Z]; "mask" := [0%Z] ]} s
  = run_onnx_model Sample.world "resnet50" {[ "pixels" := [9%Z] ]} s.
Proof.
  cbv zeta.
  eapply (run_onnx_model_reads_required_inputs_only Sample.world "resnet50" _ _ _
            {| path := "./models/vision/resnet50.onnx"; type := "onnx"; loaded := true |}
            {[ "session" := 3 ]} 3); try (vm_compute; reflexivity).
  intros n Hn%list_elem_of_singleton. subst n. vm_compute. reflexivity.
Defined.

Lemma build_result_short names :
  ∀ i outputs acc,
    i ≤ length outputs → length outputs < i + length names →
    build_result names i outputs acc = Exc IndexError.
Proof.
  induction names as [|name names IH]; intros i outputs acc Hi Hlen.
  - simpl in Hlen. lia.
  - cbn [build_result]. cbn [length] in Hlen.
    destruct (outputs !! i) as [t|] eqn:Ht; [|done].
    apply lookup_lt_Some in Ht. apply IH; lia.
Qed.

(** X10. When [session.run] returns fewer tensors than the session has
    output names, indexing the outputs fails and the failure is caught:
    [run_onnx_model] returns [None] after the graph has run and logs an
    index error; no partial result is returned. *)
Theorem run_onnx_model_short_outputs (E : Env) (name : string)
    (inputs onnx_inputs : gmap string tensor) (s : ModelService) (d : descriptor)
    (h : gmap string obj) (session : obj) (outputs : list tensor) :
  available_models s !! name = Some d → type d = "onnx" →
  loaded_models s !! name = Some h → h !! "session" = Some session →
  prepare_inputs (get_inputs E session) inputs ∅ = inr onnx_inputs →
  session_run E session onnx_inputs = Ok outputs →
  length outputs < length (get_outputs E session) →
  run_onnx_model E name inputs s
  = (Ok None,
     extend [ Call (Session_run session onnx_inputs);
              LogError ("ONNX inference failed with model " +:+ name +:+ ": "
                        +:+ "list index out of range") ] s).
Proof.
  intros Hd Hty Hh Hs Hprep Hrun Hlen.
  rewrite (run_onnx_model_loaded E name inputs s d h session), Hprep by done.
  cbv zeta. rewrite Hrun, build_result_short by (simpl; lia).
  unfold extend, emit. simpl. by rewrite <- app_assoc.
Qed.

Lemma run_onnx_model_short_outputs_witness :
  let s := (load_model Sample.world "resnet50" Sample.service).2 in
  run_onnx_model Faulty.crashing "resnet50" {[ "pixels" := [9%Z] ]} s
  = (Ok None,
     extend [ Call (Session_run 3 {[ "pixels" := [9%Z] ]});
              LogError "ONNX inference failed with model resnet50: list index out of range" ]
       s).
Proof.
  cbv zeta.
  eapply (run_onnx_model_short_outputs Faulty.crashing "resnet50" _ _ _
            {| path := "./models/vision/resnet50.onnx"; type := "onnx"; loaded := true |}
            {[ "session" := 3 ]} 3 [[1%Z; 2%Z]]); vm_compute; reflexivity.
Defined.

(** ** More on unloading *)

(** X11. [unload_model] deletes the handle and lowers the flag before it
    releases memory: for a loaded, registered model both are done whatever
    the release does, and the answer is [True] exactly when the release
    did not raise. A [False] from [unload_model] can therefore come with
    the model unloaded. *)
Theorem unload_model_unloads_before_release (E : Env) (name : string)
    (s : ModelService) (h : gmap string obj) (d : descriptor) :
  loaded_models s !! name = Some h →
  available_models s !! name = Some d →
  ∃ b s',
    unload_model E name s = (Ok b, s')
    ∧ loaded_models s' = delete name (loaded_models s)
    ∧ available_models s'
      = <[name := {| path := path d; type := type d; loaded := false |}]>
          (available_models s)
    ∧ (b = true ↔ ∃ u, release_memory E = Ok u).
Proof.
  intros Hh Hd. rewrite (unload_model_loaded _ _ _ h d) by done.
  destruct (release_memory E) as [u|e]; eexists _, _; (split; [done|]); simpl;
    repeat split; eauto; try done.
  intros [u Hu]. done.
Qed.

Lemma unload_model_unloads_before_release_witness :
  let s := (load_model Sample.world "sd15" Sample.service).2 in
  ∃ s', unload_model Faulty.crashing "sd15" s = (Ok false, s')
        ∧ loaded_models s' !! "sd15" = None
        ∧ loaded <$> available_models s' !! "sd15" = Some false.
Proof.
  cbv zeta.
  destruct (unload_model_unloads_before_release Faulty.crashing "sd15"
              (load_model Sample.world "sd15" Sample.service).2
              {[ "pipeline" := 4 ]}
              {| path := "./models/sd15"; type := "stable-diffusion"; loaded := true |})
    as (b & s' & Hrun & Hlm & Ham & Hb); [vm_compute; reflexivity..|].
  exists s'. destruct b.
  - destruct (proj1 Hb eq_refl) as [u Hu]. discriminate Hu.
  - split; [exact Hrun|]. split.
    + rewrite Hlm. apply lookup_delete_eq.
    + rewrite Ham. by rewrite lookup_insert_eq.
Defined.

(** X12. Loading a model and unloading it again restores the two dicts:
    from a state in which the name is registered with its flag down and
    has no handle, a successful [load_model] followed by [unload_model]
    leaves [available_models] and [loaded_models] exactly as they were. *)
Theorem load_then_unload_restores_the_dicts (E E' : Env) (name : string)
    (s : ModelService) (d : descriptor) (h : gmap string obj) :
  available_models s !! name = Some d →
  loaded d = false →
  loaded_models s !! name = None →
  materialize_result E (type d) (path d) = Ok (Some h) →
  let s2 := (unload_model E' name (load_model E name s).2).2 in
  available_models s2 = available_models s
  ∧ loaded_models s2 = loaded_models s.
Proof.
  intros Hd Hl Hh Hm s2. subst s2.
  rewrite (load_model_cold _ _ _ d), Hm by done. cbn [snd].
  set (s1 := loaded_state _ _ _ _).
  rewrite (unload_model_loaded E' name s1 h
             {| path := path d; type := type d; loaded := true |})
    by (subst s1; simpl; apply lookup_insert_eq).
  assert (Ha : <[name := {| path := path d; type := type d; loaded := false |}]>
                 (available_models s1) = available_models s).
  { subst s1. simpl. rewrite insert_insert_eq. apply insert_id.
    rewrite Hd. f_equal. destruct d; simpl in *. by subst. }
  assert (Hb : delete name (loaded_models s1) = loaded_models s).
  { subst s1. simpl. rewrite delete_insert_eq. by apply delete_id. }
  clearbody s1.
  destruct (release_memory E'); simpl; by rewrite Ha, Hb.
Qed.

Lemma load_then_unload_restores_the_dicts_witness :
  let s2 := (unload_model Sample.world "resnet50"
               (load_model Sample.world "resnet50" Sample.service).2).2 in
  available_models s2 = available_models Sample.service
  ∧ loaded_models s2 = loaded_models Sample.service.
Proof.
  apply (load_then_unload_restores_the_dicts Sample.world Sample.world "resnet50"
           Sample.service
           {| path := "./models/vision/resnet50.onnx"; type := "onnx"; loaded := false |}
           {[ "session" := 3 ]}); vm_compute; reflexivity.
Defined.

(** ** More on the scan *)

Lemma last_occurrence arts n :
  n ∈ art_name <$> arts →
  ∃ pre a post, arts = pre ++ a :: post ∧ art_name a = n ∧ n ∉ art_name <$> post.
Proof.
  induction arts as [|a arts IH]; intros Hn; [by apply elem_of_nil in Hn|].
  destruct (decide (n ∈ art_name <$> arts)) as [Hin|Hout].
  - destruct (IH Hin) as (pre & b & post & -> & Hb & Hpost).
    by exists (a :: pre), b, post.
  - rewrite fmap_cons, elem_of_cons in Hn. destruct Hn as [->|Hn]; [|done].
    by exists [], a, arts.
Qed.

Lemma register_all_idem arts m :
  register_all arts (register_all arts m) = register_all arts m.
Proof.
  apply map_eq. intros n.
  destruct (decide (n ∈ art_name <$> arts)) as [Hin|Hout].
  - destruct (last_occurrence arts n Hin) as (pre & a & post & -> & <- & Hpost).
    by rewrite !register_all_last.
  - by rewrite !register_all_notin.
Qed.

Lemma scan_models_keeps_handles E s :
  loaded_models (scan_models E s).2 = loaded_models s
  ∧ model_dir (scan_models E s).2 = model_dir s.
Proof.
  destruct (path_exists E (model_dir s)) eqn:Hex.
  - by destruct (scan_models_present E s Hex) as [evs ->].
  - rewrite scan_models_absent by done. by destruct (makedirs E (model_dir s)).
Qed.

(** X13. [scan_models] never touches [loaded_models], and scanning a tree
    that has not changed changes nothing more: after one scan of an
    existing root, a second scan of the same tree leaves the registry as
    the first one left it. *)
Theorem rescan_of_unchanged_tree (E : Env) (s : ModelService) :
  path_exists E (model_dir s) = true →
  let s1 := (scan_models E s).2 in
  let s2 := (scan_models E s1).2 in
  available_models s2 = available_models s1
  ∧ loaded_models s1 = loaded_models s
  ∧ loaded_models s2 = loaded_models s.
Proof.
  intros Hex s1 s2.
  destruct (scan_models_keeps_handles E s) as [Hlm Hdir].
  destruct (scan_models_keeps_handles E s1) as [Hlm1 _].
  fold s1 in Hlm, Hdir. fold s2 in Hlm1.
  split; [|split; [done|congruence]].
  assert (Hex1 : path_exists E (model_dir s1) = true) by (by rewrite Hdir).
  assert (Ha1 : available_models s1
                = register_all (artifacts (walk E (model_dir s))) (available_models s)).
  { subst s1. by destruct (scan_models_present E s Hex) as [evs ->]. }
  subst s2. destruct (scan_models_present E s1 Hex1) as [evs ->]. simpl.
  rewrite Hdir, Ha1. apply register_all_idem.
Qed.

Lemma rescan_of_unchanged_tree_witness :
  let s := perform Sample.world (Unload "sd15") Sample.service in
  available_models (scan_models Sample.world (scan_models Sample.world s).2).2
  = available_models (scan_models Sample.world s).2.
Proof.
  cbv zeta.
  exact (proj1 (rescan_of_unchanged_tree Sample.world
                  (perform Sample.world (Unload "sd15") Sample.service) eq_refl)).
Defined.

(** X14. What one directory is registered as. Right after the scan has
    visited a directory that holds [model_index.json], the directory's
    base name is registered as a diffusion model at that directory,
    whatever else the directory holds. A directory that holds
    [config.json] and no [model_index.json] is registered as a text model
    under its base name, unless one of its ONNX files has that name. *)
Theorem directory_markers (root : string) (dirs files : list string) (s : ModelService) :
  let s' := (scan_entry (root, dirs, files) s).2 in
  ("model_index.json" ∈ files →
   available_models s' !! OsPath.basename root
   = Some {| path := root; type := "stable-diffusion"; loaded := false |})
  ∧ ("config.json" ∈ files → "model_index.json" ∉ files →
     (∀ file, file ∈ files → PyStr.endswith file ".onnx" = true →
              (OsPath.splitext file).1 ≠ OsPath.basename root) →
     available_models s' !! OsPath.basename root
     = Some {| path := root; type := "transformers"; loaded := false |}).
Proof.
  intros s'. subst s'.
  destruct (scan_entry_spec (root, dirs, files) s) as [evs ->]. simpl.
  split.
  - intros Hidx. rewrite (bool_decide_eq_true_2 _ Hidx).
    rewrite app_assoc.
    apply (register_all_last _
             {| art_name := OsPath.basename root; art_path := root;
                art_kind := "stable-diffusion" |} []).
    apply not_elem_of_nil.
  - intros Hcfg Hidx Honnx.
    rewrite (bool_decide_eq_true_2 _ Hcfg), (bool_decide_eq_false_2 _ Hidx).
    rewrite app_nil_r.
    apply (register_all_last []
             {| art_name := OsPath.basename root; art_path := root;
                art_kind := "transformers" |}).
    simpl. rewrite list_elem_of_fmap. intros (a & Ha & Hin).
    apply list_elem_of_bind in Hin as (file & Hfile & Hf).
    destruct (PyStr.endswith file ".onnx") eqn:Hsfx; [|by apply elem_of_nil in Hfile].
    apply list_elem_of_singleton in Hfile as ->. simpl in Ha.
    by apply (Honnx file).
Qed.

Lemma directory_markers_witness :
  available_models
    (scan_entry ("./models/both", [], ["config.json"; "unet.onnx"; "model_index.json"])
       (new_service "./models")).2 !! "both"
  = Some {| path := "./models/both"; type := "stable-diffusion"; loaded := false |}.
Proof.
  refine (proj1 (directory_markers "./models/both" []
                   ["config.json"; "unet.onnx"; "model_index.json"]
                   (new_service "./models")) _).
  rewrite !elem_of_cons. right. right. by left.
Defined.

(** ** The other two dispatch methods against a model of another kind *)

(** X15. [generate_image] for a registered model that is not a diffusion
    model, and [run_onnx_model] for one that is not an ONNX model, return
    [None] without running anything, but like [generate_text] they compare
    the type after the load step: where that step loaded the model, it
    stays loaded, and the mismatch is logged after it. *)
Theorem dispatch_rejects_other_kinds (E : Env) (name prompt : string)
    (inputs : gmap string tensor) (s : ModelService) (d : descriptor) :
  available_models s !! name = Some d →
  ∃ b s1,
    ensure_loaded E name s = (Ok b, s1)
    ∧ (type d ≠ "stable-diffusion" →
       generate_image E name prompt s
       = (Ok None,
          if b then emit (LogError ("Model " +:+ name
                                    +:+ " is not an image generation model")) s1
          else s1))
    ∧ (type d ≠ "onnx" →
       run_onnx_model E name inputs s
       = (Ok None,
          if b then emit (LogError ("Model " +:+ name +:+ " is not an ONNX model")) s1
          else s1)).
Proof.
  intros Hd.
  destruct (ensure_loaded_returns E name s) as [b Hb].
  destruct (ensure_loaded_keeps_descriptor E name s d Hd) as (d1 & Hd1 & Hty & _).
  destruct (ensure_loaded E name s) as [r s1] eqn:Hens. simpl in *. subst r.
  exists b, s1. split; [done|]. split.
  - intros Hne. unfold generate_image. unfold bind at 1. rewrite Hens.
    destruct b; [|done]. cbn [negb]. unfold_m. simpl. rewrite Hd1. simpl.
    apply String.eqb_neq in Hne. by rewrite Hty, Hne.
  - intros Hne. unfold run_onnx_model. unfold bind at 1. rewrite Hens.
    destruct b; [|done]. cbn [negb]. unfold_m. simpl. rewrite Hd1. simpl.
    apply String.eqb_neq in Hne. by rewrite Hty, Hne.
Qed.

Lemma dispatch_rejects_other_kinds_witness :
  ∃ s1,
    ensure_loaded Sample.world "mistral-7b" Sample.service = (Ok true, s1)
    ∧ is_Some (loaded_models s1 !! "mistral-7b")
    ∧ generate_image Sample.world "mistral-7b" "a sunset" Sample.service
      = (Ok None,
         emit (LogError "Model mistral-7b is not an image generation model") s1).
Proof.
  destruct (dispatch_rejects_other_kinds Sample.world "mistral-7b" "a sunset" ∅
              Sample.service
              {| path := "./models/mistral-7b"; type := "transformers"; loaded := false |}
              eq_refl) as (b & s1 & Hens & Himg & _).
  assert (Hb : (ensure_loaded Sample.world "mistral-7b" Sample.service).1 = Ok true)
    by (vm_compute; reflexivity).
  rewrite Hens in Hb. simpl in Hb. injection Hb as ->.
  exists s1. split; [exact Hens|]. split.
  - assert (Hh : is_Some (loaded_models
                   (ensure_loaded Sample.world "mistral-7b" Sample.service).2
                   !! "mistral-7b")) by (vm_compute; eauto).
    by rewrite Hens in Hh.
  - apply Himg. discriminate.
Defined.

(** * Further properties of the endpoints *)

Lemma find_none_all {A} (f : A → bool) (l : list A) :
  (∀ x, x ∈ l → f x = false) → List.find f l = None.
Proof.
  induction l as [|x l IH]; intros H; [done|]. simpl.
  rewrite (H x) by (apply elem_of_cons; by left).
  apply IH. intros y Hy. apply H, elem_of_cons. by right.
Qed.

(** X16. The endpoints reach the model service only for a name that the
    table [ai_models] lists as active with the endpoint's own type. For a
    name with no active row of type "text" the text endpoint answers 404,
    for a name with no active row of type "image" the image endpoint
    does; in both cases the service is not called and nothing is
    written. *)
Theorem endpoints_answer_404_for_unlisted_models (E : Env) (model_name : string)
    (db : Endpoints.database) (api_key : Endpoints.ApiKey) (s : ModelService) :
  (∀ request,
     (∀ m, m ∈ Endpoints.ai_models db → Endpoints.ai_name m = model_name →
           Endpoints.ai_is_active m = true → Endpoints.ai_type m ≠ "text") →
     Endpoints.generate_text E request model_name db api_key s
     = (Endpoints.HTTPException 404
          ("Text generation model '" +:+ model_name +:+ "' not found"), db, s))
  ∧ (∀ request,
       (∀ m, m ∈ Endpoints.ai_models db → Endpoints.ai_name m = model_name →
             Endpoints.ai_is_active m = true → Endpoints.ai_type m ≠ "image") →
       Endpoints.generate_image E request model_name db api_key s
       = (Endpoints.HTTPException 404
            ("Image generation model '" +:+ model_name +:+ "' not found"), db, s)).
Proof.
  assert (Hq : ∀ kind,
            (∀ m, m ∈ Endpoints.ai_models db → Endpoints.ai_name m = model_name →
                  Endpoints.ai_is_active m = true → Endpoints.ai_type m ≠ kind) →
            Endpoints.query_model db model_name kind = None).
  { intros kind H. apply find_none_all. intros m Hm.
    destruct (String.eqb (Endpoints.ai_name m) model_name) eqn:Hn; [|done].
    destruct (Endpoints.ai_is_active m) eqn:Ha; [|done]. simpl.
    apply String.eqb_eq in Hn. apply String.eqb_neq. by apply H. }
  split; intros request H.
  - unfold Endpoints.generate_text. by rewrite (Hq "text" H).
  - unfold Endpoints.generate_image. by rewrite (Hq "image" H).
Qed.

Lemma endpoints_answer_404_for_unlisted_models_witness :
  Endpoints.generate_text Sample.world Sample.hello "sd15" Sample.db Sample.key
    Sample.service
  = (Endpoints.HTTPException 404 "Text generation model 'sd15' not found",
     Sample.db, Sample.service).
Proof.
  apply (proj1 (endpoints_answer_404_for_unlisted_models Sample.world "sd15" Sample.db
                  Sample.key Sample.service)).
  intros m Hm Hname _. simpl in Hm.
  rewrite !elem_of_cons in Hm. destruct Hm as [->|[->|Hm]].
  - discriminate Hname.
  - discriminate.
  - by apply elem_of_nil in Hm.
Defined.

(** X17. The text endpoint writes a usage log exactly when it answers
    with a body. Every other outcome leaves the database as it was; an
    answer appends one row that carries the caller's user and key, the
    id of the model row found, the tokens reported in the body, the
    request and status 200. The table of models is never written. *)
Theorem text_endpoint_logs_usage_on_success_only (E : Env)
    (request : Endpoints.TextGenerationRequest) (model_name : string)
    (db : Endpoints.database) (api_key : Endpoints.ApiKey) (s : ModelService) :
  let r := Endpoints.generate_text E request model_name db api_key s in
  Endpoints.ai_models r.1.2 = Endpoints.ai_models db
  ∧ match r.1.1 with
    | Endpoints.Respond body =>
        Endpoints.model body = model_name
        ∧ ∃ m, Endpoints.query_model db model_name "text" = Some m
               ∧ Endpoints.usage_logs r.1.2
                 = Endpoints.usage_logs db
                   ++ [ {| Endpoints.user_id := Endpoints.key_user_id api_key;
                           Endpoints.api_key_id := Endpoints.key_id api_key;
                           Endpoints.endpoint := "/api/models/text-generation";
                           Endpoints.model_id := Endpoints.ai_id m;
                           Endpoints.tokens_used := Endpoints.response_tokens_used body;
                           Endpoints.request_data := Endpoints.TextJson request;
                           Endpoints.status_code := 200 |} ]
    | _ => r.1.2 = db
    end.
Proof.
  intros r. subst r. unfold Endpoints.generate_text.
  destruct (Endpoints.query_model db model_name "text") as [m|]; [|done].
  cbn [Endpoints.has_subscription negb].
  destruct (generate_text E model_name _ _ s) as [[g|e] s1]; [|done].
  destruct (Endpoints.falsy_text g); [done|]. simpl. eauto.
Qed.

(** X18. The image endpoint never writes a usage log, and an image the
    service produced never leaves the handler: after creating the
    directory for images the handler reads [time], which the module does
    not import, so the request ends in an unhandled exception with the
    model left loaded and nothing saved. *)
Theorem image_endpoint_drops_the_image (E : Env)
    (request : Endpoints.ImageGenerationRequest) (model_name : string)
    (db : Endpoints.database) (api_key : Endpoints.ApiKey) (s : ModelService) :
  let r := Endpoints.generate_image E request model_name db api_key s in
  r.1.2 = db
  ∧ ∀ m b bs s1,
      Endpoints.query_model db model_name "image" = Some m →
      generate_image E model_name (Endpoints.image_prompt request) s
      = (Ok (Some (b :: bs)), s1) →
      r.2 = emit (Call (Makedirs "static/images")) s1
      ∧ r.1.1 = match makedirs E "static/images" with
                | Ok _ => Endpoints.Unhandled (NameError "time")
                | Exc e => Endpoints.Unhandled e
                end.
Proof.
  intros r. subst r. unfold Endpoints.generate_image. split.
  - destruct (Endpoints.query_model db model_name "image") as [m|]; [|done].
    cbn [Endpoints.has_subscription negb].
    destruct (generate_image E model_name _ s) as [[g|e] s1]; [|done].
    destruct (Endpoints.falsy_bytes g); [done|].
    by destruct (makedirs E "static/images").
  - intros m b bs s1 Hq Hgen. rewrite Hq, Hgen.
    cbn [Endpoints.has_subscription negb Endpoints.falsy_bytes].
    by destruct (makedirs E "static/images").
Qed.

Lemma image_endpoint_drops_the_image_witness :
  let r := Endpoints.generate_image Sample.world Sample.sunset "sd15" Sample.db Sample.key
             Sample.service in
  r.1.1 = Endpoints.Unhandled (NameError "time")
  ∧ is_Some (loaded_models r.2 !! "sd15").
Proof.
  cbv zeta.
  destruct (image_endpoint_drops_the_image Sample.world Sample.sunset "sd15" Sample.db
              Sample.key Sample.service) as [_ H].
  destruct (H {| Endpoints.ai_id := 2; Endpoints.ai_name := "sd15";
                 Endpoints.ai_type := "image"; Endpoints.ai_is_active := true |}
              Byte.x89 [Byte.x50; Byte.x4e; Byte.x47]
              (generate_image Sample.world "sd15" "a sunset" Sample.service).2)
    as [Hs Ho]; [vm_compute; reflexivity..|].
  split; [exact Ho|]. rewrite Hs. vm_compute. eauto.
Defined.

(** X19. What [get_available_models] lists follows the handles: in every
    state reached without a second scan there is one entry per registered
    name, and an entry says [loaded: True] exactly when the name has a
    handle in [loaded_models]. *)
Theorem listing_reports_handles (s : ModelService) :
  reachable false s →
  length (get_available_models s) = size (available_models s)
  ∧ ∀ l, l ∈ get_available_models s →
         (listed_loaded l = true ↔ is_Some (loaded_models s !! listed_name l)).
Proof.
  intros Hs. split.
  - unfold get_available_models. by rewrite length_fmap, length_map_to_list.
  - intros l (d & Hd & _ & Hl)%elem_of_listing.
    pose proof (reachable_flag_iff_handle s Hs (listed_name l)) as Hinv.
    rewrite Hl, <- Hinv. split.
    + intros Hup. by exists d.
    + intros (d' & Hd' & Hup). congruence.
Qed.

Lemma listing_reports_handles_witness :
  let s := perform Sample.world (Load "resnet50") Sample.service in
  length (get_available_models s) = 3
  ∧ ({| listed_name := "resnet50"; listed_type := "onnx"; listed_loaded := true |}
     ∈ get_available_models s).
Proof.
  cbv zeta.
  assert (Hs : reachable false (perform Sample.world (Load "resnet50") Sample.service)).
  { apply reachable_step; [|discriminate].
    apply (reachable_init false Sample.world "./models"). reflexivity. }
  destruct (listing_reports_handles _ Hs) as [Hlen _].
  split.
  - rewrite Hlen. vm_compute. reflexivity.
  - apply elem_of_listing. eexists. split; [vm_compute; reflexivity|]. by split.
Defined.

(** * The API key dependency *)

Section ApiKeys.
Import Dependencies.

Lemma find_elem_of {A} (f : A → bool) (l : list A) x :
  List.find f l = Some x → x ∈ l ∧ f x = true.
Proof.
  intros H. apply List.find_some in H as [Hin Hf]. split; [|done].
  by apply list_elem_of_In.
Qed.

Lemma find_unique_key wanted rows row :
  NoDup (key <$> rows) → row ∈ rows → matches wanted row = true →
  List.find (matches wanted) rows = Some row.
Proof.
  induction rows as [|x rows IH]; intros Hnd Hin Hm; [by apply elem_of_nil in Hin|].
  rewrite fmap_cons in Hnd. apply NoDup_cons in Hnd as [Hx Hnd].
  simpl. destruct (matches wanted x) eqn:Hmx.
  - apply elem_of_cons in Hin as [->|Hin]; [done|]. exfalso. apply Hx.
    unfold matches in *. apply andb_true_iff in Hm as [Hk _], Hmx as [Hkx _].
    apply String.eqb_eq in Hk, Hkx. rewrite Hkx, <- Hk.
    apply list_elem_of_fmap. by exists row.
  - apply elem_of_cons in Hin as [->|Hin]; [congruence|]. by apply IH.
Qed.

Lemma truthy_Some o : truthy o = true → ∃ v, o = Some v ∧ v ≠ EmptyString.
Proof.
  destruct o as [v|]; simpl; [|done]. intros H. exists v. split; [done|].
  apply String.eqb_neq. by destruct (String.eqb v EmptyString).
Qed.

Lemma expired_false now k :
  expired now k = false ↔ ∀ t, expires_at k = Some t → (now ≤ t)%Z.
Proof.
  unfold expired. destruct (expires_at k) as [t|]; [|split; [by intros|done]].
  rewrite Z.ltb_ge. split; [by intros ? ? [= <-]|by intros H; apply H].
Qed.

(** X20. [verify_api_key] grants a request only on a row of [api_keys]
    that carries the supplied key, is active, has no expiry or one not
    before now, and belongs to an existing active user; what it returns
    is that row with [last_used_at] set. With the key column unique, as
    the table declares it, every such row is granted: a key that expires
    at this very instant still passes. *)
Theorem verify_api_key_grants_usable_keys (now now' : Z)
    (x_api_key query_api_key : option string) (db : tables) :
  (∀ k db',
     verify_api_key now now' x_api_key query_api_key db = (Granted k, db') →
     ∃ supplied row,
       py_or x_api_key query_api_key = Some supplied ∧ supplied ≠ EmptyString
       ∧ row ∈ api_keys db ∧ usable db now supplied row ∧ k = stamp now' row)
  ∧ (∀ supplied row,
       NoDup (key <$> api_keys db) →
       py_or x_api_key query_api_key = Some supplied → supplied ≠ EmptyString →
       row ∈ api_keys db → usable db now supplied row →
       (verify_api_key now now' x_api_key query_api_key db).1 = Granted (stamp now' row)).
Proof.
  split.
  - intros k db'. unfold verify_api_key.
    destruct (truthy (py_or x_api_key query_api_key)) eqn:Ht; [|done].
    destruct (truthy_Some _ Ht) as (supplied & Hs & Hne). rewrite Hs. simpl.
    destruct (List.find (matches supplied) (api_keys db)) as [row|] eqn:Hf; [|done].
    destruct (expired now row) eqn:Hex; [done|].
    destruct (user_of db row) as [u|] eqn:Hu; [|done].
    destruct (user_is_active u) eqn:Hua; [|done]. simpl. intros [= <- <-].
    apply find_elem_of in Hf as [Hin Hm].
    unfold matches in Hm. apply andb_true_iff in Hm as [Hk Ha].
    apply String.eqb_eq in Hk.
    exists supplied, row. repeat split; try done.
    + by apply expired_false.
    + by exists u.
  - intros supplied row Hnd Hs Hne Hin (Hk & Ha & Hexp & u & Hu & Hua).
    unfold verify_api_key. rewrite Hs. simpl.
    apply String.eqb_neq in Hne. rewrite Hne. simpl.
    rewrite (find_unique_key supplied (api_keys db) row Hnd Hin)
      by (unfold matches; rewrite Ha, andb_true_r; by apply String.eqb_eq).
    rewrite (proj2 (expired_false now row) Hexp), Hu, Hua. done.
Qed.

Lemma verify_api_key_grants_usable_keys_witness :
  (verify_api_key 1000 1001 (Some "pro_abc") None Accounts.tables).1
  = Granted
      {| key_id := 7; key_user_id := 42; key := "pro_abc"; key_is_active := true;
         expires_at := Some 1000%Z; last_used_at := Some 1001%Z |}.
Proof.
  refine (proj2 (verify_api_key_grants_usable_keys 1000 1001 (Some "pro_abc") None
                   Accounts.tables) "pro_abc"
            {| key_id := 7; key_user_id := 42; key := "pro_abc"; key_is_active := true;
               expires_at := Some 1000%Z; last_used_at := None |} _ eq_refl _ _ _).
  - vm_compute. repeat constructor; rewrite ?elem_of_cons, ?elem_of_nil;
      intros H; repeat destruct H as [H|H]; discriminate || done.
  - discriminate.
  - apply elem_of_cons. by left.
  - repeat split; try reflexivity.
    + intros t [= <-]. lia.
    + eexists. split; reflexivity.
Defined.

Lemma update_first_unstamped wanted now rows :
  unstamped <$> update_first (matches wanted) (stamp now) rows = unstamped <$> rows.
Proof.
  induction rows as [|x rows IH]; [done|]. cbn [update_first].
  destruct (matches wanted x); rewrite !fmap_cons; [done|]. by rewrite IH.
Qed.

Lemma find_update_first wanted now rows row :
  List.find (matches wanted) rows = Some row →
  List.find (matches wanted) (update_first (matches wanted) (stamp now) rows)
  = Some (stamp now row).
Proof.
  induction rows as [|x rows IH]; [done|]. simpl.
  destruct (matches wanted x) eqn:Hm.
  - intros [= <-]. cbn [List.find].
    change (matches wanted (stamp now x)) with (matches wanted x). by rewrite Hm.
  - intros H. simpl. rewrite Hm. by apply IH.
Qed.

Lemma verify_api_key_cases now now' x_api_key query_api_key db :
  (∃ supplied row u,
     py_or x_api_key query_api_key = Some supplied ∧ supplied ≠ EmptyString
     ∧ List.find (matches supplied) (api_keys db) = Some row
     ∧ user_of db row = Some u ∧ user_is_active u = true
     ∧ verify_api_key now now' x_api_key query_api_key db
       = (Granted (stamp now' row),
          {| users := users db;
             api_keys := update_first (matches supplied) (stamp now') (api_keys db) |}))
  ∨ ((verify_api_key now now' x_api_key query_api_key db).2 = db
     ∧ ∀ k, (verify_api_key now now' x_api_key query_api_key db).1 ≠ Granted k).
Proof.
  unfold verify_api_key.
  destruct (truthy (py_or x_api_key query_api_key)) eqn:Ht; simpl;
    [|right; split; [done|intros k H; discriminate H]].
  destruct (truthy_Some _ Ht) as (supplied & Hs & Hne). rewrite Hs. simpl.
  destruct (List.find (matches supplied) (api_keys db)) as [row|] eqn:Hf;
    [|right; split; [done|intros k H; discriminate H]].
  destruct (expired now row) eqn:Hex;
    [right; split; [done|intros k H; discriminate H]|].
  destruct (user_of db row) as [u|] eqn:Hu;
    [|right; split; [done|intros k H; discriminate H]].
  destruct (user_is_active u) eqn:Hua; simpl;
    [|right; split; [done|intros k H; discriminate H]].
  left. by exists supplied, row, u.
Qed.

(** X21. A verification writes nothing but the stamp. A request that is
    not granted leaves the tables as they were; a granted one leaves the
    users and every column of every key other than [last_used_at] as they
    were. So the same key is granted again at any later time that is not
    past its expiry, and what is returned then is the same row with the
    newer stamp. *)
Theorem verify_api_key_writes_only_the_stamp (now now' later later' : Z)
    (x_api_key query_api_key : option string) (db : tables) :
  let r := verify_api_key now now' x_api_key query_api_key db in
  users r.2 = users db
  ∧ unstamped <$> api_keys r.2 = unstamped <$> api_keys db
  ∧ ((∀ k, r.1 ≠ Granted k) → r.2 = db)
  ∧ ∀ k, r.1 = Granted k →
         (∀ t, expires_at k = Some t → (later ≤ t)%Z) →
         (verify_api_key later later' x_api_key query_api_key r.2).1
         = Granted (stamp later' k).
Proof.
  intros r. subst r.
  destruct (verify_api_key_cases now now' x_api_key query_api_key db)
    as [(supplied & row & u & Hs & Hne & Hf & Hu & Hua & ->)|[Hdb Hno]].
  - cbn [fst snd users api_keys]. split; [done|].
    split; [apply update_first_unstamped|]. split.
    + intros H. by destruct (H (stamp now' row)).
    + intros k [= <-] Hlater. unfold verify_api_key. rewrite Hs. cbn [default].
      unfold truthy. apply String.eqb_neq in Hne. rewrite Hne. cbn [negb api_keys]. unfold id.
      rewrite (find_update_first supplied now' (api_keys db) row Hf).
      rewrite (proj2 (expired_false later (stamp now' row)) Hlater).
      replace (user_of _ (stamp now' row)) with (Some u) by (by rewrite <- Hu).
      by rewrite Hua.
  - rewrite Hdb. repeat split; try done. intros k Hk. by destruct (Hno k).
Qed.

Lemma verify_api_key_writes_only_the_stamp_witness :
  let r := verify_api_key 10 11 (Some "pro_abc") None Accounts.tables in
  (verify_api_key 900 901 (Some "pro_abc") None r.2).1
  = Granted
      {| key_id := 7; key_user_id := 42; key := "pro_abc"; key_is_active := true;
         expires_at := Some 1000%Z; last_used_at := Some 901%Z |}.
Proof.
  cbv zeta.
  destruct (verify_api_key_writes_only_the_stamp 10 11 900 901 (Some "pro_abc") None
              Accounts.tables) as (_ & _ & _ & H).
  apply (H {| key_id := 7; key_user_id := 42; key := "pro_abc"; key_is_active := true;
              expires_at := Some 1000%Z; last_used_at := Some 11%Z |}).
  - vm_compute. reflexivity.
  - intros t [= <-]. lia.
Defined.

(** X22. Where the key is read from. A non-empty [X-API-Key] header is the
    key, whatever the query string holds; an absent or empty header makes
    the [api_key] query parameter the key; with neither, the request is
    refused with 401 "API key required" before any table is read. *)
Theorem api_key_is_read_from_header_first (now now' : Z)
    (x_api_key query_api_key : option string) (db : tables) :
  (truthy x_api_key = true →
   verify_api_key now now' x_api_key query_api_key db
   = verify_api_key now now' x_api_key None db)
  ∧ (truthy x_api_key = false →
     verify_api_key now now' x_api_key query_api_key db
     = verify_api_key now now' None query_api_key db)
  ∧ (truthy x_api_key = false → truthy query_api_key = false →
     verify_api_key now now' x_api_key query_api_key db
     = (Denied 401 "API key required", db)).
Proof.
  unfold verify_api_key, py_or. split; [|split].
  - by intros ->.
  - by intros ->.
  - intros -> Hq. simpl. by rewrite Hq.
Qed.

Lemma api_key_is_read_from_header_first_witness :
  verify_api_key 10 11 (Some "pro_abc") (Some "test_xyz") Accounts.tables
  = verify_api_key 10 11 (Some "pro_abc") None Accounts.tables
  ∧ verify_api_key 10 11 (Some EmptyString) None Accounts.tables
    = (Denied 401 "API key required", Accounts.tables).
Proof.
  destruct (api_key_is_read_from_header_first 10 11 (Some "pro_abc") (Some "test_xyz")
              Accounts.tables) as (H1 & _).
  destruct (api_key_is_read_from_header_first 10 11 (Some EmptyString) None
              Accounts.tables) as (_ & _ & H3).
  split; [exact (H1 eq_refl)|exact (H3 eq_refl eq_refl)].
Defined.

End ApiKeys.

(** * The text route *)

(** X23. A request to the text route reaches the model service only with
    a key that [verify_api_key] granted. When the key is not granted the
    reply is the refusal, and the service, the models table, the usage
    logs and the key tables are all as they were: nothing is loaded,
    generated or logged. When the route answers with a body, the usage
    log it appended names the granted key and that key's user. *)
Theorem text_route_requires_a_granted_key (E : Env) (now now' : Z)
    (x_api_key query_api_key : option string)
    (request : Endpoints.TextGenerationRequest) (model_name : string)
    (w : Routes.world) :
  let r := Routes.text_generation E now now' x_api_key query_api_key request model_name w in
  let v := (Dependencies.verify_api_key now now' x_api_key query_api_key (Routes.keys w)).1 in
  ((∀ k, v ≠ Dependencies.Granted k) → r = (Routes.Refused v, w))
  ∧ ∀ body,
      r.1 = Routes.Handled (Endpoints.Respond body) →
      ∃ k log,
        v = Dependencies.Granted k
        ∧ Endpoints.usage_logs (Routes.data r.2)
          = Endpoints.usage_logs (Routes.data w) ++ [log]
        ∧ Endpoints.api_key_id log = Dependencies.key_id k
        ∧ Endpoints.user_id log = Dependencies.key_user_id k.
Proof.
  intros r v. subst r v. unfold Routes.text_generation.
  destruct (verify_api_key_cases now now' x_api_key query_api_key (Routes.keys w))
    as [(supplied & row & u & _ & _ & _ & _ & _ & ->)|[Hdb Hno]].
  - cbn [fst snd]. split; [intros H; by destruct (H (Dependencies.stamp now' row))|].
    unfold Endpoints.generate_text.
    destruct (Endpoints.query_model (Routes.data w) model_name "text") as [m|];
      [|by intros body [=]].
    cbn [Endpoints.has_subscription negb].
    destruct (generate_text E model_name _ _ (Routes.service w)) as [[g|e] s1];
      [|by intros body [=]].
    destruct (Endpoints.falsy_text g); [by intros body [=]|].
    intros body [= <-]. eexists _, _. split; [done|]. split; [done|]. by split.
  - destruct (Dependencies.verify_api_key now now' x_api_key query_api_key (Routes.keys w))
      as [[k|st detail|] keys']; simpl in *; subst keys'.
    + by destruct (Hno k).
    + split; [|by intros body [=]]. intros _. by destruct w.
    + split; [|by intros body [=]]. intros _. by destruct w.
Qed.

Lemma text_route_requires_a_granted_key_witness :
  Routes.text_generation Sample.world 10 11 (Some "test_xyz") None Sample.hello
    "mistral-7b" Accounts.world
  = (Routes.Refused (Dependencies.Denied 403 "Inactive user"), Accounts.world).
Proof.
  destruct (text_route_requires_a_granted_key Sample.world 10 11 (Some "test_xyz") None
              Sample.hello "mistral-7b" Accounts.world) as [H _].
  apply H. intros k Hk. vm_compute in Hk. discriminate Hk.
Defined.

(** * The rate limiter *)

Section RateLimiter.
Context {time : Type} (within_minute : time → time → bool) (settings : RateLimit.Settings).

Local Abbreviation max_requests := (RateLimit.max_requests settings).
Local Abbreviation dispatch := (RateLimit.dispatch within_minute settings).
Local Abbreviation serve := (RateLimit.serve within_minute settings).
Local Abbreviation recent := (RateLimit.recent within_minute).

Local Abbreviation within_limits := (RateLimit.within_limits settings).

Lemma recent_length (now : time) (api_key : option string)
    (c : gmap (option string) (list time)) :
  within_limits c →
  (Z.of_nat (length (recent now api_key c)) ≤ Z.max 0 (max_requests api_key))%Z.
Proof.
  intros Hc. unfold RateLimit.recent, RateLimit.within_limits in *.
  destruct (c !! api_key) as [l|] eqn:Hl; simpl; [|lia].
  pose proof (List.filter_length_le (within_minute now) l).
  specialize (Hc api_key l Hl). lia.
Qed.

Lemma dispatch_within_limits (r : RateLimit.request time)
    (c : gmap (option string) (list time)) :
  within_limits c → within_limits (dispatch r c).2.
Proof.
  intros Hc. unfold RateLimit.dispatch.
  destruct (PyStr.startswith (RateLimit.path r) "/api"); simpl; [|done].
  set (key := Dependencies.py_or _ _).
  pose proof (recent_length (RateLimit.at_time r) key c Hc) as Hkept.
  unfold RateLimit.within_limits in *.
  destruct (Z.leb_spec (max_requests key)
              (Z.of_nat (length (recent (RateLimit.at_time r) key c)))) as [Hfull|Hroom];
    simpl; intros k l [[<- <-]|[_ Hl]]%lookup_insert_Some; eauto.
  rewrite length_app. simpl. lia.
Qed.

(** X24. The middleware never holds more timestamps for a key than the
    key's limit: from an empty table, after any sequence of requests at
    any times, every bucket has at most [max_requests] entries (none, if
    the limit is negative). *)
Theorem buckets_stay_within_limits (requests : list (RateLimit.request time)) :
  within_limits (serve requests ∅).
Proof.
  unfold RateLimit.serve.
  assert (H : ∀ c, within_limits c →
            within_limits (foldl (λ c r, (dispatch r c).2) c requests)).
  { induction requests as [|r requests IH]; intros c Hc; [done|].
    simpl. by apply IH, dispatch_within_limits. }
  apply H. unfold RateLimit.within_limits. intros k l Hl. by rewrite lookup_empty in Hl.
Qed.

(** X25. What the middleware decides and what it records. A request off
    the API routes is passed on and changes nothing. On an API route the
    request is stopped exactly when the key already has [max_requests]
    timestamps inside the window; a stopped request is not recorded; a
    request passed on is recorded once, and the remaining count it is
    told is the limit less the recorded ones, never negative. The
    buckets of other keys are not touched. *)
Theorem dispatch_records_passed_requests_only (r : RateLimit.request time)
    (c : gmap (option string) (list time)) :
  let api_key := Dependencies.py_or (RateLimit.x_api_key r) (RateLimit.query_api_key r) in
  let kept := recent (RateLimit.at_time r) api_key c in
  let limit := max_requests api_key in
  (∀ other, other ≠ api_key → (dispatch r c).2 !! other = c !! other)
  ∧ match (dispatch r c).1 with
    | RateLimit.Bypassed =>
        PyStr.startswith (RateLimit.path r) "/api" = false ∧ (dispatch r c).2 = c
    | RateLimit.Limited =>
        (limit ≤ Z.of_nat (length kept))%Z
        ∧ (dispatch r c).2 !! api_key = Some kept
    | RateLimit.Forwarded told remaining =>
        (Z.of_nat (length kept) < limit)%Z
        ∧ told = limit
        ∧ (dispatch r c).2 !! api_key = Some (kept ++ [RateLimit.at_time r])
        ∧ remaining = (limit - Z.of_nat (length kept) - 1)%Z
        ∧ (0 ≤ remaining)%Z
    end.
Proof.
  intros api_key kept limit. unfold RateLimit.dispatch.
  destruct (PyStr.startswith (RateLimit.path r) "/api"); simpl; [|done].
  fold api_key. fold kept. fold limit.
  destruct (Z.leb_spec limit (Z.of_nat (length kept))) as [Hfull|Hroom]; simpl.
  - split; [by intros other Hne; apply lookup_insert_ne|].
    split; [done|apply lookup_insert_eq].
  - split; [by intros other Hne; apply lookup_insert_ne|].
    rewrite length_app. simpl.
    split; [lia|]. split; [done|]. split; [apply lookup_insert_eq|]. split; lia.
Qed.

End RateLimiter.

Lemma buckets_stay_within_limits_example :
  let c := RateLimit.serve RateLimit.seconds_within_minute RateLimit.defaults
             (RateLimit.at_second "test_k" <$> seqZ 0 15) ∅ in
  length (default [] (c !! Some "test_k")) = 10
  ∧ (RateLimit.dispatch RateLimit.seconds_within_minute RateLimit.defaults
       (RateLimit.at_second "test_k" 15) c).1 = RateLimit.Limited
  ∧ (RateLimit.dispatch RateLimit.seconds_within_minute RateLimit.defaults
       (RateLimit.at_second "test_k" 60) c).1 = RateLimit.Forwarded 10 0.
Proof. cbv zeta. repeat split; vm_compute; reflexivity. Qed.

(** * The constructor *)

Lemma silent_ret : silent (ret tt).
Proof. by intros s. Qed.

Lemma silent_bind (m k : M unit) : silent m → silent k → silent (m ;; k).
Proof.
  intros Hm Hk s. unfold bind. destruct (Hm s) as [Hr He].
  destruct (m s) as [[[]|e] s1]; [|done]. simpl in *.
  destruct (Hk s1) as [Hr1 He1]. by rewrite He1.
Qed.

Lemma silent_register_logged name p ty msg :
  silent (register name p ty ;; logger_info msg).
Proof.
  intros s. rewrite register_logged. simpl. rewrite load_calls_app. simpl.
  by rewrite app_nil_r.
Qed.

Lemma silent_for_each {A} (l : list A) (body : A → M unit) :
  (∀ x, silent (body x)) → silent (for_each l body).
Proof.
  intros Hbody. induction l as [|x l IH]; [apply silent_ret|].
  cbn [for_each]. by apply silent_bind.
Qed.

Lemma silent_scan_entry e : silent (scan_entry e).
Proof.
  destruct e as [[root dirs] files]. unfold scan_entry.
  repeat apply silent_bind.
  - case_match; [apply silent_register_logged|apply silent_ret].
  - apply silent_for_each. intros file.
    case_match; [apply silent_register_logged|apply silent_ret].
  - case_match; [apply silent_register_logged|apply silent_ret].
Qed.

(** X26. Constructing the service loads nothing. Whatever the root holds,
    the service comes out with no handle, no backend load was made while
    it was built, and every descriptor it registered has its flag down and
    one of the three type tags. *)
Theorem construction_loads_nothing (E : Env) (dir : string) :
  let s := (init E dir).2 in
  loaded_models s = ∅
  ∧ load_calls (events s) = []
  ∧ ∀ name d, available_models s !! name = Some d →
              loaded d = false ∧ known_type (type d).
Proof.
  intros s. subst s. split; [|split].
  - unfold init. by destruct (scan_models_keeps_handles E (new_service dir)) as [-> _].
  - unfold init, scan_models. unfold bind at 1. unfold gets. simpl.
    unfold bind at 1. unfold logger_info, modify. simpl.
    destruct (path_exists E dir); simpl.
    + destruct (silent_for_each (walk E dir) scan_entry silent_scan_entry
                  (emit (LogInfo ("Scanning models in " +:+ dir)) (new_service dir)))
        as [_ ->]. done.
    + unfold_m. simpl. by destruct (makedirs E dir).
  - intros name d Hd. split.
    + destruct (loaded d) eqn:Hl; [|done].
      pose proof (init_flag_iff_handle E dir name) as Hinv.
      destruct (proj1 Hinv) as [h Hh]; [by exists d|].
      destruct (scan_models_keeps_handles E (new_service dir)) as [Hlm _].
      unfold init in Hh. rewrite Hlm in Hh. simpl in Hh. by rewrite lookup_empty in Hh.
    + by apply (wf_types _ (init_well_formed E dir) name).
Qed.
